(** * Playback control of scripts/music_player.py

    A shallow embedding of the playback half of the [MusicPlayer] class
    (start_playlist, play_current_song, stop_playback, next_song,
    previous_song, toggle_shuffle, toggle_play_pause, get_progress,
    check_player_status) and the properties its specification states.

    The class talks to the outside world all the time: it spawns mpv,
    polls it, signals it, and exchanges JSON lines with it over a Unix
    socket.  Every such call is an [event]; a method is a finite
    interaction tree over these events, threaded through the object's
    fields.  An exception does not roll the fields back, exactly as in
    Python, so the state is carried next to the outcome. *)

From Stdlib Require Import ZArith List String Bool Lia Permutation FinFun.
From Stdlib Require Import SpecFloat.
Import ListNotations.
Open Scope string_scope.
Open Scope Z_scope.

Set Implicit Arguments.

(* ===================================================================== *)
(** ** Python values *)
(* ===================================================================== *)

(** Python floats are IEEE 754 binary64. *)
Definition float := spec_float.
Definition prec : Z := 53.
Definition emax : Z := 1024.

Definition fdiv : float -> float -> float := SFdiv prec emax.
Definition fmul : float -> float -> float := SFmul prec emax.
Definition fltb : float -> float -> bool := SFltb.
Definition fleb : float -> float -> bool := SFleb.
Definition feqb : float -> float -> bool := SFeqb.

(** The nearest double of an integer (round half to even). *)
Definition float_of_Z (z : Z) : float := binary_normalize prec emax z 0 false.

(** The values [json.loads] produces, which are also the values the
    fields [paused] and the progress tuple hold. *)
#[local] Unset Elimination Schemes.
Inductive pyval : Type :=
| PNone
| PBool (b : bool)
| PInt (z : Z)
| PFloat (f : float)
| PStr (s : string)
| PList (l : list pyval)
| PDict (kvs : list (string * pyval)).
#[local] Set Elimination Schemes.

(** [bool(v)]: the truth value used by [if v] and [not v]. *)
Definition truthy (v : pyval) : bool :=
  match v with
  | PNone => false
  | PBool b => b
  | PInt z => negb (z =? 0)
  | PFloat f => negb (feqb f (S754_zero false))
  | PStr s => negb (String.eqb s "")
  | PList l => match l with [] => false | _ => true end
  | PDict kvs => match kvs with [] => false | _ => true end
  end.

Definition py_not (v : pyval) : pyval := PBool (negb (truthy v)).

(** A number seen as a double; exact for every integer below 2^53, which
    covers the literals 0 and 100 the code compares with. *)
Definition as_float (v : pyval) : float :=
  match v with
  | PInt z => float_of_Z z
  | PFloat f => f
  | PBool b => float_of_Z (if b then 1 else 0)
  | _ => S754_nan
  end.

(** [a < b] on numbers. *)
Definition py_lt (a b : pyval) : bool :=
  match a, b with
  | PInt x, PInt y => x <? y
  | _, _ => fltb (as_float a) (as_float b)
  end.

(** [a <= b] on numbers. *)
Definition py_le (a b : pyval) : bool :=
  match a, b with
  | PInt x, PInt y => x <=? y
  | _, _ => fleb (as_float a) (as_float b)
  end.

(** [a == b] on numbers. *)
Definition py_num_eq (a b : pyval) : bool :=
  match a, b with
  | PInt x, PInt y => x =? y
  | _, _ => feqb (as_float a) (as_float b)
  end.

(** [max(a, b)] keeps [a] unless [b > a]; [min(a, b)] keeps [a] unless
    [b < a].  The result is one of the two objects, type included. *)
Definition py_max (a b : pyval) : pyval := if py_lt a b then b else a.
Definition py_min (a b : pyval) : pyval := if py_lt b a then b else a.

(** Lookup in a dict built by [json.loads]; the dict is the list of its
    items, each key once. *)
Fixpoint dict_get (kvs : list (string * pyval)) (key : string) : option pyval :=
  match kvs with
  | [] => None
  | (k, v) :: rest => if String.eqb k key then Some v else dict_get rest key
  end.

Definition is_str (key : string) (v : pyval) : bool :=
  match v with PStr s => String.eqb s key | _ => false end.

(** [needle in hay] for strings. *)
Fixpoint substring_of (needle hay : string) : bool :=
  String.prefix needle hay
  || match hay with
     | EmptyString => false
     | String _ rest => substring_of needle rest
     end.

(* ===================================================================== *)
(** ** Exceptions *)
(* ===================================================================== *)

Inductive exn : Type :=
| OSError
| ConnectionRefusedError
| FileNotFoundError
| TimeoutError
| ProcessLookupError
| PermissionError
| ValueError
| JSONDecodeError
| UnicodeDecodeError
| KeyError
| IndexError
| TypeError
| AttributeError
| OverflowError
| TimeoutExpired.

Definition exn_eqb (a b : exn) : bool :=
  match a, b with
  | OSError, OSError | ConnectionRefusedError, ConnectionRefusedError
  | FileNotFoundError, FileNotFoundError | TimeoutError, TimeoutError
  | ProcessLookupError, ProcessLookupError | PermissionError, PermissionError
  | ValueError, ValueError | JSONDecodeError, JSONDecodeError
  | UnicodeDecodeError, UnicodeDecodeError | KeyError, KeyError
  | IndexError, IndexError | TypeError, TypeError
  | AttributeError, AttributeError | OverflowError, OverflowError
  | TimeoutExpired, TimeoutExpired => true
  | _, _ => false
  end.

(** The base class that matters for the [except] clauses of the file;
    [socket.error] is [OSError] itself. *)
Definition exn_base (e : exn) : option exn :=
  match e with
  | ConnectionRefusedError | FileNotFoundError | TimeoutError
  | ProcessLookupError | PermissionError => Some OSError
  | JSONDecodeError | UnicodeDecodeError => Some ValueError
  | _ => None
  end.

(** [isinstance(e, cls)]. *)
Definition isinstance (e cls : exn) : bool :=
  exn_eqb e cls
  || match exn_base e with Some b => exn_eqb b cls | None => false end.

(** [except (c1, c2, ...)]. *)
Definition caught_by (classes : list exn) (e : exn) : bool :=
  existsb (isinstance e) classes.

Inductive outcome (A : Type) : Type :=
| Normal (a : A)
| Raised (e : exn).
Arguments Normal {A} a.
Arguments Raised {A} e.

(* ===================================================================== *)
(** ** The outside world *)
(* ===================================================================== *)

(** A [subprocess.Popen] object and a connected socket object. *)
Definition process := nat.
Definition socket := nat.

Inductive signal := SIGSTOP | SIGCONT.

(** What [sock.recv(1024)] delivered, sorted by what [.decode('utf-8')]
    and [json.loads] make of it. *)
Inductive payload : Type :=
| NotUtf8
| NotJson
| Json (v : pyval).

Inductive event : Type :=
| ParseM3u8 (playlist_name : string)
| GetSongInfo (song_path : string)
| RandBelow (n : nat)
| IpcSocketPath
| Popen (argv : list string)
| Sleep
| Poll (p : process)
| Terminate (p : process)
| Wait (p : process)
| Kill (p : process)
| SendSignal (p : process) (sig : signal)
| PathExists (path : string)
| Unlink (path : string)
| SockConnect (path : string) (timeout : bool)
| SockSend (sock : socket) (command : pyval)
| SockRecv (sock : socket)
| SockClose (sock : socket).

(** The type of what each call gives back: a value, [Some e] when a call
    without result raises [e], or [inl e] when a call with a result
    raises [e]. *)
Definition answer (ev : event) : Type :=
  match ev with
  | ParseM3u8 _ => list string
  | GetSongInfo _ => string
  | RandBelow _ => nat
  | IpcSocketPath => string
  | Popen _ => (exn + process)%type
  | Sleep => unit
  | Poll _ => option Z
  | Terminate _ => option exn
  | Wait _ => option exn
  | Kill _ => option exn
  | SendSignal _ _ => option exn
  | PathExists _ => bool
  | Unlink _ => option exn
  | SockConnect _ _ => (exn + socket)%type
  | SockSend _ _ => option exn
  | SockRecv _ => (exn + payload)%type
  | SockClose _ => unit
  end.

(** A finite interaction tree: return, or make a call and continue with
    its answer. *)
Inductive prog (R : Type) : Type :=
| Ret (r : R)
| Vis (ev : event) (k : answer ev -> prog R).
Arguments Ret {R} r.
Arguments Vis {R} ev k.

Fixpoint pbind {R T : Type} (p : prog R) (f : R -> prog T) : prog T :=
  match p with
  | Ret r => f r
  | Vis ev k => Vis ev (fun a => pbind (k a) f)
  end.

(** The world answers the n-th call of a run. *)
Definition oracle := nat -> forall ev : event, answer ev.

(** One recorded call. *)
Definition entry := { ev : event & answer ev }.

Fixpoint run {R : Type} (o : oracle) (n : nat) (p : prog R) : list entry * R :=
  match p with
  | Ret r => ([], r)
  | Vis ev k =>
      let a := o n ev in
      let (t, r) := run o (S n) (k a) in
      (existT answer ev a :: t, r)
  end.

(** The calls of a run, without their answers. *)
Definition calls {R : Type} (o : oracle) (p : prog R) : list event :=
  map (@projT1 event answer) (fst (run o 0 p)).

(** The value a run ends with. *)
Definition result {R : Type} (o : oracle) (p : prog R) : R :=
  snd (run o 0 p).

(** Every run of [p] ends in [Q], whatever the world answers. *)
Fixpoint always {R : Type} (p : prog R) (Q : R -> Prop) : Prop :=
  match p with
  | Ret r => Q r
  | Vis ev k => forall a, always (k a) Q
  end.

(* ===================================================================== *)
(** ** The object and its methods as stateful programs *)
(* ===================================================================== *)

(** The playback fields of [MusicPlayer.__init__]; the curses fields
    (stdscr, selected_index, playlists, _last_height, _last_width) play
    no part in playback. *)
Record MusicPlayer : Type := mkPlayer {
  current_playlist : option string;
  songs : list string;
  current_song_index : Z;
  shuffle : bool;
  player_process : option process;
  ipc_socket : option string;
  paused : pyval;
  current_song_info : string
}.

(** The object [__init__] builds. *)
Definition init : MusicPlayer :=
  mkPlayer None [] 0 false None None (PBool false) "".

(** A method body: it reads and writes the fields, calls the world, and
    returns or raises. *)
Definition M (A : Type) : Type := MusicPlayer -> prog (outcome A * MusicPlayer).

Definition ret {A : Type} (a : A) : M A := fun self => Ret (Normal a, self).

Definition raise {A : Type} (e : exn) : M A := fun self => Ret (Raised e, self).

Definition bind {A B : Type} (m : M A) (f : A -> M B) : M B :=
  fun self =>
    pbind (m self)
      (fun r => match fst r with
                | Normal a => f a (snd r)
                | Raised e => Ret (Raised e, snd r)
                end).

(** [try: body  except c1: h1  except c2: h2 ...]: the first clause whose
    classes match handles the exception; what a handler raises is not
    caught by its sibling clauses. *)
Fixpoint dispatch {A : Type} (clauses : list (list exn * M A)) (e : exn) : M A :=
  match clauses with
  | [] => raise e
  | (classes, handler) :: rest =>
      if caught_by classes e then handler else dispatch rest e
  end.

Definition try_except {A : Type} (body : M A) (clauses : list (list exn * M A)) : M A :=
  fun self =>
    pbind (body self)
      (fun r => match fst r with
                | Normal a => Ret (Normal a, snd r)
                | Raised e => dispatch clauses e (snd r)
                end).

Definition perform (ev : event) : M (answer ev) :=
  fun self => Vis ev (fun a => Ret (Normal a, self)).

Definition gets {A : Type} (field : MusicPlayer -> A) : M A :=
  fun self => Ret (Normal (field self), self).

Definition modify (f : MusicPlayer -> MusicPlayer) : M unit :=
  fun self => Ret (Normal tt, f self).

Declare Scope py_scope.
Delimit Scope py_scope with py.
Notation "x <- m ;; k" := (bind m (fun x => k))
  (at level 61, m at next level, right associativity) : py_scope.
Notation "m ;; k" := (bind m (fun _ => k))
  (at level 61, right associativity) : py_scope.
Open Scope py_scope.

(** The object with one field replaced. *)
Definition with_current_playlist (v : option string) (s : MusicPlayer) : MusicPlayer :=
  mkPlayer v (songs s) (current_song_index s) (shuffle s)
    (player_process s) (ipc_socket s) (paused s) (current_song_info s).
Definition with_songs (v : list string) (s : MusicPlayer) : MusicPlayer :=
  mkPlayer (current_playlist s) v (current_song_index s) (shuffle s)
    (player_process s) (ipc_socket s) (paused s) (current_song_info s).
Definition with_current_song_index (v : Z) (s : MusicPlayer) : MusicPlayer :=
  mkPlayer (current_playlist s) (songs s) v (shuffle s)
    (player_process s) (ipc_socket s) (paused s) (current_song_info s).
Definition with_shuffle (v : bool) (s : MusicPlayer) : MusicPlayer :=
  mkPlayer (current_playlist s) (songs s) (current_song_index s) v
    (player_process s) (ipc_socket s) (paused s) (current_song_info s).
Definition with_player_process (v : option process) (s : MusicPlayer) : MusicPlayer :=
  mkPlayer (current_playlist s) (songs s) (current_song_index s) (shuffle s)
    v (ipc_socket s) (paused s) (current_song_info s).
Definition with_ipc_socket (v : option string) (s : MusicPlayer) : MusicPlayer :=
  mkPlayer (current_playlist s) (songs s) (current_song_index s) (shuffle s)
    (player_process s) v (paused s) (current_song_info s).
Definition with_paused (v : pyval) (s : MusicPlayer) : MusicPlayer :=
  mkPlayer (current_playlist s) (songs s) (current_song_index s) (shuffle s)
    (player_process s) (ipc_socket s) v (current_song_info s).
Definition with_current_song_info (v : string) (s : MusicPlayer) : MusicPlayer :=
  mkPlayer (current_playlist s) (songs s) (current_song_index s) (shuffle s)
    (player_process s) (ipc_socket s) (paused s) v.

(** Field assignments, [self.f = v]. *)
Definition set_current_playlist (v : option string) : M unit := modify (with_current_playlist v).
Definition set_songs (v : list string) : M unit := modify (with_songs v).
Definition set_current_song_index (v : Z) : M unit := modify (with_current_song_index v).
Definition set_shuffle (v : bool) : M unit := modify (with_shuffle v).
Definition set_player_process (v : option process) : M unit := modify (with_player_process v).
Definition set_ipc_socket (v : option string) : M unit := modify (with_ipc_socket v).
Definition set_paused (v : pyval) : M unit := modify (with_paused v).
Definition set_current_song_info (v : string) : M unit := modify (with_current_song_info v).

(** A call that returns nothing and may raise. *)
Definition check (status : option exn) : M unit :=
  match status with
  | None => ret tt
  | Some e => raise e
  end.

(** A call that returns a value or raises. *)
Definition value {A : Type} (r : exn + A) : M A :=
  match r with
  | inl e => raise e
  | inr a => ret a
  end.

(* ===================================================================== *)
(** ** Python built-ins the methods use *)
(* ===================================================================== *)

Definition len {A : Type} (l : list A) : Z := Z.of_nat (List.length l).

(** [not l] for a list. *)
Definition is_empty {A : Type} (l : list A) : bool :=
  match l with [] => true | _ => false end.

(** [l[i]], with Python's negative indices and its IndexError. *)
Definition py_index (l : list string) (i : Z) : M string :=
  let j := if i <? 0 then i + len l else i in
  if (j <? 0) || (len l <=? j) then raise IndexError
  else ret (nth (Z.to_nat j) l "").

(** The bound of a slice, clipped into [0, len l]. *)
Definition slice_bound {A : Type} (l : list A) (i : Z) : nat :=
  Z.to_nat (if i <? 0 then Z.max 0 (len l + i) else Z.min i (len l)).

(** [l[i:]] and [l[:i]]. *)
Definition slice_from {A : Type} (l : list A) (i : Z) : list A := skipn (slice_bound l i) l.
Definition slice_to {A : Type} (l : list A) (i : Z) : list A := firstn (slice_bound l i) l.

Fixpoint update {A : Type} (l : list A) (i : nat) (v : A) : list A :=
  match l, i with
  | [], _ => []
  | _ :: rest, O => v :: rest
  | x :: rest, S i' => x :: update rest i' v
  end.

(** [x[i], x[j] = x[j], x[i]]: both reads come first. *)
Definition swap (x : list string) (i j : nat) : list string :=
  update (update x i (nth j x "")) j (nth i x "").

(** [random._randbelow(n)], a draw from range(n). *)
Definition randbelow (n : nat) : M nat :=
  r <- perform (RandBelow n) ;;
  ret (Nat.modulo r n).

(** The loop of [random.shuffle]:
    for i in reversed(range(1, len(x))): j = randbelow(i + 1); swap. *)
Fixpoint shuffle_down (i : nat) (x : list string) : M (list string) :=
  match i with
  | O => ret x
  | S i' =>
      j <- randbelow (S i) ;;
      shuffle_down i' (swap x i j)
  end.

Definition random_shuffle (x : list string) : M (list string) :=
  shuffle_down (List.length x - 1) x.

(** ['data' in v]. *)
Definition py_contains (key : string) (v : pyval) : M bool :=
  match v with
  | PDict kvs => ret (match dict_get kvs key with Some _ => true | None => false end)
  | PList l => ret (existsb (is_str key) l)
  | PStr s => ret (substring_of key s)
  | _ => raise TypeError
  end.

(** [v['data']]. *)
Definition py_getitem (v : pyval) (key : string) : M pyval :=
  match v with
  | PDict kvs =>
      match dict_get kvs key with
      | Some x => ret x
      | None => raise KeyError
      end
  | _ => raise TypeError
  end.

Definition is_none (v : pyval) : bool :=
  match v with PNone => true | _ => false end.

(** [response.decode('utf-8')] and [json.loads(text)]. *)
Definition decode (b : payload) : M payload :=
  match b with
  | NotUtf8 => raise UnicodeDecodeError
  | _ => ret b
  end.

Definition json_loads (text : payload) : M pyval :=
  match text with
  | Json v => ret v
  | _ => raise JSONDecodeError
  end.

Section Float.

(** [float(s)] on a string: the double it spells, or None for ValueError.
    The grammar of Python's literals is the interpreter's business. *)
Variable str_to_float : string -> option float.

(** [float(v)]: the double, or the exception it raises. *)
Definition float_of (v : pyval) : exn + float :=
  match v with
  | PFloat f => inr f
  | PInt z =>
      match float_of_Z z with
      | S754_infinity _ => inl OverflowError
      | f => inr f
      end
  | PBool b => inr (float_of_Z (if b then 1 else 0))
  | PStr s =>
      match str_to_float s with
      | Some f => inr f
      | None => inl ValueError
      end
  | _ => inl TypeError
  end.

Definition py_float (v : pyval) : M float := value (float_of v).

End Float.

(* ===================================================================== *)
(** ** Configuration *)
(* ===================================================================== *)

Definition PLAYER_CMD : string := "mpv".

(* ===================================================================== *)
(** ** MusicPlayer *)
(* ===================================================================== *)

(** [self.player_process.send_signal(sig)]. *)
Definition send_signal (sig : signal) : M unit :=
  p <- gets player_process ;;
  match p with
  | Some proc => st <- perform (SendSignal proc sig) ;; check st
  | None => raise AttributeError
  end.

(** [stop_playback]: terminate, wait a second, kill on timeout; remove
    the socket file; forget both. *)
Definition stop_playback : M unit :=
  p <- gets player_process ;;
  match p with
  | Some proc =>
      try_except
        (st <- perform (Terminate proc) ;; check st ;;
         st <- perform (Wait proc) ;; check st)
        [([TimeoutExpired], st <- perform (Kill proc) ;; check st);
         ([ProcessLookupError], ret tt)] ;;
      set_player_process None
  | None => ret tt
  end ;;
  path <- gets ipc_socket ;;
  match path with
  | Some f =>
      if truthy (PStr f) then
        there <- perform (PathExists f) ;;
        if there
        then try_except (st <- perform (Unlink f) ;; check st) [([OSError], ret tt)]
        else ret tt
      else ret tt
  | None => ret tt
  end ;;
  set_ipc_socket None.

(** The argument vector handed to [subprocess.Popen]. *)
Definition player_argv (ipc song_path : string) : list string :=
  [PLAYER_CMD; "--no-terminal"; "--no-video";
   String.append "--input-ipc-server=" ipc; song_path].

(** f"Error: {PLAYER_CMD} not found" *)
Definition not_found_label : string :=
  String.append "Error: " (String.append PLAYER_CMD " not found").

Definition play_current_song : M unit :=
  l <- gets songs ;;
  i <- gets current_song_index ;;
  if is_empty l || (len l <=? i) then ret tt
  else
    stop_playback ;;
    l <- gets songs ;;
    i <- gets current_song_index ;;
    song_path <- py_index l i ;;
    info <- perform (GetSongInfo song_path) ;;
    set_current_song_info info ;;
    set_paused (PBool false) ;;
    ipc <- perform IpcSocketPath ;;
    set_ipc_socket (Some ipc) ;;
    try_except
      (r <- perform (Popen (player_argv ipc song_path)) ;;
       proc <- value r ;;
       set_player_process (Some proc) ;;
       perform Sleep)
      [([FileNotFoundError], set_current_song_info not_found_label)].

Definition start_playlist (playlist_name : string) : M unit :=
  set_current_playlist (Some playlist_name) ;;
  parsed <- perform (ParseM3u8 playlist_name) ;;
  set_songs parsed ;;
  l <- gets songs ;;
  if is_empty l then ret tt
  else
    sh <- gets shuffle ;;
    (if sh
     then l <- gets songs ;; l' <- random_shuffle l ;; set_songs l'
     else ret tt) ;;
    set_current_song_index 0 ;;
    play_current_song.

Definition next_song : M unit :=
  l <- gets songs ;;
  if is_empty l then ret tt
  else
    i <- gets current_song_index ;;
    set_current_song_index ((i + 1) mod len l) ;;
    play_current_song.

Definition previous_song : M unit :=
  l <- gets songs ;;
  if is_empty l then ret tt
  else
    i <- gets current_song_index ;;
    set_current_song_index ((i - 1) mod len l) ;;
    play_current_song.

Definition toggle_shuffle : M unit :=
  sh <- gets shuffle ;;
  set_shuffle (negb sh) ;;
  l <- gets songs ;;
  i <- gets current_song_index ;;
  if negb (is_empty l) && (i <? len l) then
    let remaining := slice_from l (i + 1) in
    if negb (is_empty remaining) then
      remaining' <- random_shuffle remaining ;;
      set_songs (slice_to l (i + 1) ++ remaining')%list
    else ret tt
  else ret tt.

(** [not self.player_process or self.player_process.poll() is not None] *)
Definition not_running : M bool :=
  p <- gets player_process ;;
  match p with
  | None => ret true
  | Some proc =>
      code <- perform (Poll proc) ;;
      ret (match code with Some _ => true | None => false end)
  end.

(** [not self.ipc_socket or not Path(self.ipc_socket).exists()] *)
Definition no_socket : M bool :=
  path <- gets ipc_socket ;;
  match path with
  | None => ret true
  | Some f =>
      if truthy (PStr f) then there <- perform (PathExists f) ;; ret (negb there)
      else ret true
  end.

(** [socket.socket(AF_UNIX, SOCK_STREAM)], the optional
    [settimeout(0.5)], and [connect(self.ipc_socket)]. *)
Definition sock_connect (timeout : bool) : M socket :=
  path <- gets ipc_socket ;;
  match path with
  | Some f => r <- perform (SockConnect f timeout) ;; value r
  | None => raise TypeError
  end.

(** [sock.send((json.dumps(command) + "\n").encode('utf-8'))] *)
Definition sock_send (sock : socket) (command : pyval) : M unit :=
  st <- perform (SockSend sock command) ;; check st.

(** [sock.recv(1024).decode('utf-8')] *)
Definition sock_recv (sock : socket) : M payload :=
  r <- perform (SockRecv sock) ;;
  b <- value r ;;
  decode b.

Definition command (words : list string) : pyval :=
  PDict [("command", PList (map PStr words))].

(** The signal branch, written twice in the source with the same body. *)
Definition signal_pause : M unit :=
  try_except
    (p <- gets paused ;;
     if truthy p
     then send_signal SIGCONT ;; set_paused (PBool false)
     else send_signal SIGSTOP ;; set_paused (PBool true))
    [([ProcessLookupError; OSError],
      set_player_process None ;; set_paused (PBool false))].

Definition flip_paused : M unit :=
  p <- gets paused ;;
  set_paused (py_not p).

Definition toggle_play_pause : M unit :=
  dead <- not_running ;;
  if dead then ret tt
  else
    absent <- no_socket ;;
    if absent then signal_pause
    else
      try_except
        (sock <- sock_connect false ;;
         sock_send sock (command ["cycle"; "pause"]) ;;
         response <- sock_recv sock ;;
         try_except
           (_ <- json_loads response ;;
            sock_send sock (command ["get_property"; "pause"]) ;;
            status_resp <- sock_recv sock ;;
            status_result <- json_loads status_resp ;;
            has <- py_contains "data" status_result ;;
            if has
            then v <- py_getitem status_result "data" ;; set_paused v
            else flip_paused)
           [([JSONDecodeError; KeyError], flip_paused)] ;;
         perform (SockClose sock))
        [([ConnectionRefusedError; FileNotFoundError; OSError; OSError],
          signal_pause)].

Definition check_player_status : M unit :=
  p <- gets player_process ;;
  match p with
  | Some proc =>
      code <- perform (Poll proc) ;;
      match code with
      | Some _ => next_song
      | None => ret tt
      end
  | None => ret tt
  end.

(** The tuple [get_progress] returns. *)
Definition snapshot : Type := pyval * pyval * pyval.

Definition zeros : snapshot := (PInt 0, PInt 0, PInt 0).

Section Progress.

Variable str_to_float : string -> option float.

(** [x = 0.0; if 'data' in r and r['data'] is not None: x = float(r['data'])] *)
Definition extract (reply : pyval) : M float :=
  has <- py_contains "data" reply ;;
  if has then
    v <- py_getitem reply "data" ;;
    if negb (is_none v) then py_float str_to_float v
    else ret (S754_zero false)
  else ret (S754_zero false).

(** [min(100, max(0, (position / duration) * 100))] *)
Definition percentage_of (position duration : float) : pyval :=
  py_min (PInt 100)
    (py_max (PInt 0) (PFloat (fmul (fdiv position duration) (float_of_Z 100)))).

(** The try block: Some tuple when it returns from inside, None when
    control falls out of it to the final [return (0, 0, 0)]. *)
Definition query : M (option snapshot) :=
  sock <- sock_connect true ;;
  sock_send sock (command ["get_property"; "time-pos"]) ;;
  pos_response <- sock_recv sock ;;
  pos_result <- json_loads pos_response ;;
  sock_send sock (command ["get_property"; "duration"]) ;;
  dur_response <- sock_recv sock ;;
  dur_result <- json_loads dur_response ;;
  perform (SockClose sock) ;;
  position <- extract pos_result ;;
  duration <- extract dur_result ;;
  if py_lt (PInt 0) (PFloat duration)
  then ret (Some (PFloat position, PFloat duration, percentage_of position duration))
  else ret None.

Definition get_progress : M snapshot :=
  dead <- not_running ;;
  if dead then ret zeros
  else
    absent <- no_socket ;;
    if absent then ret zeros
    else
      r <- try_except query
             [([ConnectionRefusedError; FileNotFoundError; OSError; OSError;
                JSONDecodeError; KeyError; ValueError; TimeoutError],
               ret None)] ;;
      match r with
      | Some snap => ret snap
      | None => ret zeros
      end.

End Progress.

(* ===================================================================== *)
(** ** Worlds to run the methods in *)
(* ===================================================================== *)

(** A world where everything works: mpv starts and keeps running, the
    socket file is there, the player answers with an empty object. *)
Definition default_answer (ev : event) : answer ev :=
  match ev as e return answer e with
  | ParseM3u8 _ => []
  | GetSongInfo song_path => song_path
  | RandBelow _ => 0%nat
  | IpcSocketPath => "/tmp/mpv_music_player_4242.sock"
  | Popen _ => inr 1%nat
  | Sleep => tt
  | Poll _ => None
  | Terminate _ => None
  | Wait _ => None
  | Kill _ => None
  | SendSignal _ _ => None
  | PathExists _ => true
  | Unlink _ => None
  | SockConnect _ _ => inr 7%nat
  | SockSend _ _ => None
  | SockRecv _ => inr (Json (PDict []))
  | SockClose _ => tt
  end.

Definition quiet : oracle := fun _ ev => default_answer ev.

(** The playlist file lists three tracks. *)
Definition abc : list string := ["a.mp3"; "b.mp3"; "c.mp3"].

Definition three_tracks : oracle :=
  fun _ ev =>
    match ev as e return answer e with
    | ParseM3u8 _ => abc
    | e => default_answer e
    end.

(** mpv is not installed. *)
Definition no_player : oracle :=
  fun _ ev =>
    match ev as e return answer e with
    | ParseM3u8 _ => abc
    | Popen _ => inl FileNotFoundError
    | e => default_answer e
    end.

(** The state a method leaves behind, and what it returned or raised. *)
Definition state_after {A : Type} (o : oracle) (m : M A) (self : MusicPlayer) : MusicPlayer :=
  snd (result o (m self)).

Definition outcome_of {A : Type} (o : oracle) (m : M A) (self : MusicPlayer) : outcome A :=
  fst (result o (m self)).

(* ===================================================================== *)
(** ** The playback state machine *)
(* ===================================================================== *)

Section Machine.

Variable str_to_float : string -> option float.

(** What the event loop of [run] can call. *)
Inductive operation : Type :=
| StartPlaylist (playlist_name : string)
| PlayCurrentSong
| StopPlayback
| NextSong
| PreviousSong
| ToggleShuffle
| TogglePlayPause
| GetProgress
| CheckPlayerStatus.

Definition method (op : operation) : M unit :=
  match op with
  | StartPlaylist playlist_name => start_playlist playlist_name
  | PlayCurrentSong => play_current_song
  | StopPlayback => stop_playback
  | NextSong => next_song
  | PreviousSong => previous_song
  | ToggleShuffle => toggle_shuffle
  | TogglePlayPause => toggle_play_pause
  | GetProgress => _ <- get_progress str_to_float ;; ret tt
  | CheckPlayerStatus => check_player_status
  end.

(** The states the object goes through: the one [__init__] builds, and
    the one any method leaves, in any world, returning or raising. *)
Inductive reachable : MusicPlayer -> Prop :=
| reach_init : reachable init
| reach_step (self : MusicPlayer) (op : operation) (o : oracle) :
    reachable self -> reachable (state_after o (method op) self).

End Machine.

(** [next_song] once per world of the list. *)
Fixpoint next_songs (worlds : list oracle) (self : MusicPlayer) : MusicPlayer :=
  match worlds with
  | [] => self
  | o :: rest => next_songs rest (state_after o next_song self)
  end.

(** The index invariant of the session. *)
Definition index_ok (self : MusicPlayer) : Prop :=
  songs self <> [] -> 0 <= current_song_index self < len (songs self).

(** The session fields: what is loaded and where the cursor stands. *)
Definition same_session (s s' : MusicPlayer) : Prop :=
  current_playlist s' = current_playlist s /\ songs s' = songs s /\
  current_song_index s' = current_song_index s /\ shuffle s' = shuffle s.

(** The run of [p] in the world [o], from call number [n] on, ends in
    [Q calls result]. *)
Fixpoint along {R : Type} (o : oracle) (n : nat) (p : prog R)
         (Q : list event -> R -> Prop) : Prop :=
  match p with
  | Ret r => Q [] r
  | Vis ev k => along o (S n) (k (o n ev)) (fun t r => Q (ev :: t) r)
  end.

(* ===================================================================== *)
(** ** Situations the specification speaks of *)
(* ===================================================================== *)

(** A call on the control channel. *)
Definition on_channel (ev : event) : bool :=
  match ev with
  | SockConnect _ _ | SockSend _ _ | SockRecv _ | SockClose _ => true
  | _ => false
  end.

(** A call that starts, signals or ends a player process. *)
Definition on_process (ev : event) : bool :=
  match ev with
  | Popen _ | Terminate _ | Wait _ | Kill _ | SendSignal _ _ => true
  | _ => false
  end.

(** There is no process handle, or the first thing the method learns from
    polling it is that the process has exited. *)
Definition player_gone (o : oracle) (self : MusicPlayer) : Prop :=
  match player_process self with
  | None => True
  | Some proc => o 0%nat (Poll proc) <> None
  end.

(** There is no socket path, or the file is not there when the method
    looks (its second call, after the poll). *)
Definition endpoint_absent (o : oracle) (self : MusicPlayer) : Prop :=
  match ipc_socket self with
  | None => True
  | Some f => o 1%nat (PathExists f) = false
  end.

(** The player runs, its socket accepts the connection, and the two
    property queries of [get_progress] are answered with the JSON values
    [pos_reply] and [dur_reply]. *)
Definition progress_exchange (o : oracle) (self : MusicPlayer)
           (pos_reply dur_reply : pyval) : Prop :=
  exists (proc : process) (f : string) (sock : socket),
    player_process self = Some proc /\ ipc_socket self = Some f /\ f <> "" /\
    o 0%nat (Poll proc) = None /\
    o 1%nat (PathExists f) = true /\
    o 2%nat (SockConnect f true) = inr sock /\
    o 3%nat (SockSend sock (command ["get_property"; "time-pos"])) = None /\
    o 4%nat (SockRecv sock) = inr (Json pos_reply) /\
    o 5%nat (SockSend sock (command ["get_property"; "duration"])) = None /\
    o 6%nat (SockRecv sock) = inr (Json dur_reply).

(** The player runs, its socket accepts the connection, the cycle command
    is answered with some JSON value, and the query of the pause property
    is answered with [readback]. *)
Definition pause_exchange (o : oracle) (self : MusicPlayer) (readback : payload) : Prop :=
  exists (proc : process) (f : string) (sock : socket) (cycle_reply : pyval),
    player_process self = Some proc /\ ipc_socket self = Some f /\ f <> "" /\
    o 0%nat (Poll proc) = None /\
    o 1%nat (PathExists f) = true /\
    o 2%nat (SockConnect f false) = inr sock /\
    o 3%nat (SockSend sock (command ["cycle"; "pause"])) = None /\
    o 4%nat (SockRecv sock) = inr (Json cycle_reply) /\
    o 5%nat (SockSend sock (command ["get_property"; "pause"])) = None /\
    o 6%nat (SockRecv sock) = inr readback.



(** The data field converts to the double [f]. *)
Definition numeric (str_to_float : string -> option float)
           (reply : list (string * pyval)) (f : float) : Prop :=
  exists v, dict_get reply "data" = Some v /\ float_of str_to_float v = inr f.

(** [r] is [x] clamped to [0, 100]. *)
Definition clamped (x : float) (r : pyval) : Prop :=
  py_le (PInt 0) r = true /\ py_le r (PInt 100) = true /\
  (fltb x (float_of_Z 0) = true -> r = PInt 0) /\
  (fleb (float_of_Z 0) x = true -> fleb x (float_of_Z 100) = true ->
   py_num_eq r (PFloat x) = true) /\
  (fltb (float_of_Z 100) x = true -> r = PInt 100).

(** mpv is not installed: every spawn raises FileNotFoundError. *)
Definition binary_missing (o : oracle) : Prop :=
  forall (n : nat) (argv : list string), o n (Popen argv) = inl FileNotFoundError.

Definition raises_only (classes : list exn) (status : option exn) : Prop :=
  match status with
  | None => True
  | Some e => caught_by classes e = true
  end.

(** Tearing the old player down raises nothing but what [stop_playback]
    expects from it. *)
Definition teardown_contained (o : oracle) : Prop :=
  forall n : nat,
    (forall p, raises_only [TimeoutExpired; ProcessLookupError] (o n (Terminate p))) /\
    (forall p, raises_only [TimeoutExpired; ProcessLookupError] (o n (Wait p))) /\
    (forall p, o n (Kill p) = None) /\
    (forall f, raises_only [OSError] (o n (Unlink f))).

(** What [play_current_song] comes to when mpv is not installed. *)
Definition spawn_failed (self : MusicPlayer) (t : list event)
           (r : outcome unit * MusicPlayer) : Prop :=
  fst r = Normal tt /\
  same_session self (snd r) /\
  player_process (snd r) = None /\
  current_song_info (snd r) = not_found_label /\
  exists ipc,
    In (Popen (player_argv ipc (nth (Z.to_nat (current_song_index self)) (songs self) ""))) t.


(** What [extract] makes of a reply object, as a value. *)
Definition reading (str_to_float : string -> option float)
           (reply : list (string * pyval)) : outcome float :=
  match dict_get reply "data" with
  | None => Normal (S754_zero false)
  | Some v =>
      if is_none v then Normal (S754_zero false)
      else match float_of str_to_float v with
           | inr f => Normal f
           | inl e => Raised e
           end
  end.

(** The exceptions the try block of [get_progress] catches. *)
Definition progress_catches : list exn :=
  [ConnectionRefusedError; FileNotFoundError; OSError; OSError;
   JSONDecodeError; KeyError; ValueError; TimeoutError].

(* ===================================================================== *)
(** ** More situations *)
(* ===================================================================== *)

(** There is a process handle and the poll at the start of the method finds
    the process alive. *)
Definition running (o : oracle) (self : MusicPlayer) (proc : process) : Prop :=
  player_process self = Some proc /\ o 0%nat (Poll proc) = None.

(** Every signal sent reaches the process. *)
Definition signals_delivered (o : oracle) : Prop :=
  forall (n : nat) (p : process) (sig : signal), o n (SendSignal p sig) = None.

(** Every spawn succeeds and yields the process [proc]. *)
Definition spawn_yields (o : oracle) (proc : process) : Prop :=
  forall (n : nat) (argv : list string), o n (Popen argv) = inr proc.

(** The signal that toggles a player whose flag is [p]. *)
Definition toggling_signal (p : pyval) : signal :=
  if truthy p then SIGCONT else SIGSTOP.

(** The track under the cursor. *)
Definition current_track (self : MusicPlayer) : string :=
  nth (Z.to_nat (current_song_index self)) (songs self) "".

Definition is_draw (ev : event) : bool :=
  match ev with RandBelow _ => true | _ => false end.

(* ===================================================================== *)
(** ** get_song_info *)
(* ===================================================================== *)

(** [d.get(key, default)]; anything but a dict has no [get]. *)
Definition py_get (v : pyval) (key : string) (default : pyval) : M pyval :=
  match v with
  | PDict kvs => ret (match dict_get kvs key with Some x => x | None => default end)
  | _ => raise AttributeError
  end.

Fixpoint string_drop (n : nat) (s : string) : string :=
  match n, s with
  | O, _ => s
  | S n', String _ rest => string_drop n' rest
  | S _, EmptyString => EmptyString
  end.

(** [s.split(sep, 1)]: cut at the leftmost occurrence of [sep], or the
    whole string alone when there is none. *)
Fixpoint split_once (sep s : string) : list string :=
  if String.prefix sep s then [""; string_drop (String.length sep) s]
  else match s with
       | EmptyString => [s]
       | String c rest =>
           match split_once sep rest with
           | [a; b] => [String c a; b]
           | _ => [s]
           end
       end.

(** What [subprocess.run] returned: the exit code and the captured
    standard output, sorted by what [json.loads] makes of it. *)
Record completed : Type := Completed {
  returncode : Z;
  stdout : payload
}.

(** [except Exception]. *)
Definition every_exception : list exn :=
  [OSError; ConnectionRefusedError; FileNotFoundError; TimeoutError;
   ProcessLookupError; PermissionError; ValueError; JSONDecodeError;
   UnicodeDecodeError; KeyError; IndexError; TypeError; AttributeError;
   OverflowError; TimeoutExpired].

Section SongInfo.

(** [Path(p).stem], and [str(v)] for a value that is not a string. *)
Variable path_stem : string -> string.
Variable repr : pyval -> string.

(** How an f-string renders a value. *)
Definition py_str (v : pyval) : string :=
  match v with
  | PStr s => s
  | _ => repr v
  end.

(** [tags.get(lower) or tags.get(upper) or fallback] *)
Definition tag_or (tags : pyval) (lower upper fallback : string) : M pyval :=
  a <- py_get tags lower PNone ;;
  if truthy a then ret a
  else
    b <- py_get tags upper PNone ;;
    if truthy b then ret b else ret (PStr fallback).

(** The label built from ffprobe's JSON. *)
Definition label_of_tags (data : pyval) : M string :=
  format <- py_get data "format" (PDict []) ;;
  format_info <- py_get format "tags" (PDict []) ;;
  artist <- tag_or format_info "artist" "ARTIST" "Unknown Artist" ;;
  title <- tag_or format_info "title" "TITLE" "Unknown Title" ;;
  ret (String.append (py_str artist) (String.append " - " (py_str title))).

(** [parts = filename.split(sep, 1); f"{parts[0]} - {parts[1]}"] *)
Definition rejoin (sep filename : string) : M string :=
  let parts := split_once sep filename in
  p0 <- py_index parts 0 ;;
  p1 <- py_index parts 1 ;;
  ret (String.append p0 (String.append " - " p1)).

(** The label built from the file name. *)
Definition label_of_filename (song_path : string) : M string :=
  let filename := path_stem song_path in
  if substring_of " - " filename then rejoin " - " filename
  else if substring_of "_" filename then rejoin "_" filename
  else ret filename.

(** [probe] is what running ffprobe on the file came to. *)
Definition get_song_info (probe : exn + completed) (song_path : string) : M string :=
  try_except
    (tagged <- try_except
                 (result <- value probe ;;
                  if returncode result =? 0 then
                    data <- json_loads (stdout result) ;;
                    label <- label_of_tags data ;;
                    ret (Some label)
                  else ret None)
                 [([TimeoutExpired; FileNotFoundError; JSONDecodeError], ret None)] ;;
     match tagged with
     | Some label => ret label
     | None => label_of_filename song_path
     end)
    [(every_exception, ret (path_stem song_path))].

End SongInfo.

(** ffprobe gave nothing to go by: it is not installed, it timed out, it
    failed, or it printed something that is not JSON. *)
Definition probe_unusable (probe : exn + completed) : Prop :=
  probe = inl TimeoutExpired \/ probe = inl FileNotFoundError \/
  (exists result, probe = inr result /\ returncode result <> 0) \/
  (exists code, probe = inr (Completed code NotJson)).

(** ffprobe printed a JSON object whose format.tags is the object [tags]. *)
Definition probe_tags (probe : exn + completed) (tags : list (string * pyval)) : Prop :=
  exists data format,
    probe = inr (Completed 0 (Json (PDict data))) /\
    dict_get data "format" = Some (PDict format) /\
    dict_get format "tags" = Some (PDict tags).

(** The tag [lower] holds the non-empty text [value], or it is absent or
    empty and the tag [upper] holds it. *)
Definition tagged (tags : list (string * pyval)) (lower upper value : string) : Prop :=
  value <> "" /\
  (dict_get tags lower = Some (PStr value) \/
   ((dict_get tags lower = None \/ dict_get tags lower = Some (PStr "")) /\
    dict_get tags upper = Some (PStr value))).

(** ffprobe printed a JSON object without any of the four tags: no format
    entry, no tags entry in it, or a tags object with none of them. *)
Definition probe_untagged (probe : exn + completed) : Prop :=
  exists data,
    probe = inr (Completed 0 (Json (PDict data))) /\
    (dict_get data "format" = None \/
     exists format,
       dict_get data "format" = Some (PDict format) /\
       (dict_get format "tags" = None \/
        exists tags,
          dict_get format "tags" = Some (PDict tags) /\
          dict_get tags "artist" = None /\ dict_get tags "ARTIST" = None /\
          dict_get tags "title" = None /\ dict_get tags "TITLE" = None)).

Definition is_dict (v : pyval) : bool :=
  match v with PDict _ => true | _ => false end.

(* ===================================================================== *)
(** ** parse_m3u8 *)
(* ===================================================================== *)

(** The file system as the method sees it during one call: which paths
    exist, and the lines of a file, or the exception [open] raises. *)
Record filesystem : Type := {
  path_exists : string -> bool;
  read_lines : string -> exn + list string
}.

Section Playlists.

(** [str(Path.home())], [str(Path(a) / b)], [str(Path(s))] and
    [s.strip()]; paths are handled as the strings they print as. *)
Variable home : string.
Variable join : string -> string -> string.
Variable normal : string -> string.
Variable strip : string -> string.

Variable fs : filesystem.

(** [Path.home() / "Music"] and [PLAYLISTS_DIR]. *)
Definition MUSIC_DIR : string := join home "Music".
Definition PLAYLISTS_DIR : string := join MUSIC_DIR "playlists".

(** The path a stripped line stands for: itself when absolute, else under
    the playlists directory if that exists, else under ~/Music. *)
Definition song_path_of (line : string) : string :=
  if String.prefix "/" line then normal line
  else
    let song_path := join PLAYLISTS_DIR line in
    if negb (path_exists fs song_path) then join MUSIC_DIR line else song_path.

(** A line to be read as a path: not blank, not a comment. *)
Definition is_entry (line : string) : bool :=
  negb (line =? "")%string && negb (String.prefix "#" line).

(** The body of the loop over the lines, appending to [songs]. *)
Fixpoint read_entries (lines songs : list string) : list string :=
  match lines with
  | [] => songs
  | raw :: rest =>
      let line := strip raw in
      if is_entry line then
        let song_path := song_path_of line in
        if path_exists fs song_path
        then read_entries rest (songs ++ [song_path])
        else read_entries rest songs
      else read_entries rest songs
  end.

(** What one raw line of the file adds to the list. *)
Definition song_of_line (raw : string) : list string :=
  let line := strip raw in
  if is_entry line && path_exists fs (song_path_of line) then [song_path_of line] else [].

(** A raw line that adds nothing: blank, a comment, or naming a file that
    is not there. *)
Definition skipped (raw : string) : Prop :=
  strip raw = "" \/ String.prefix "#" (strip raw) = true \/
  path_exists fs (song_path_of (strip raw)) = false.

Definition parse_m3u8 (playlist_name : string) : outcome (list string) :=
  let playlist_path := join PLAYLISTS_DIR (String.append playlist_name ".m3u8") in
  if negb (path_exists fs playlist_path) then Normal []
  else
    match read_lines fs playlist_path with
    | inl e => Raised e
    | inr lines => Normal (read_entries lines [])
    end.

End Playlists.

(** A small file system to run the method on: one playlist file, one
    track next to it and one under ~/Music. *)
Definition slash (a b : string) : string := String.append a (String.append "/" b).

Definition demo_exists (p : string) : bool :=
  existsb (String.eqb p)
    ["/home/u/Music/playlists/mix.m3u8"; "/home/u/Music/playlists/a.mp3";
     "/home/u/Music/b.mp3"; "/srv/c.mp3"].

Definition demo_fs : filesystem :=
  {| path_exists := demo_exists;
     read_lines := fun _ => inr ["#EXTM3U"; "a.mp3"; ""; "b.mp3"; "gone.mp3"; "/srv/c.mp3"] |}.

(* ===================================================================== *)
(** ** The key dispatch of run *)
(* ===================================================================== *)

(** The object with the two fields the playlist browser adds. *)
Record App : Type := mkApp {
  player : MusicPlayer;
  playlists : list string;
  selected_index : Z
}.

(** How one pass through the loop body ends: on to the next pass, out of
    the loop, or out of the program with an exception. *)
Inductive verdict : Type :=
| Continue
| Break
| Crash (e : exn)
| CrashZeroDivision.

(** [curses.KEY_DOWN] and [curses.KEY_UP]. *)
Definition KEY_DOWN : Z := 258.
Definition KEY_UP : Z := 259.

(** A playback method called from the loop. *)
Definition on_player (m : M unit) (app : App) : prog (verdict * App) :=
  pbind (m (player app))
    (fun r => Ret (match fst r with
                   | Normal _ => Continue
                   | Raised e => Crash e
                   end,
                   mkApp (snd r) (playlists app) (selected_index app))).

(** [self.selected_index = i % len(self.playlists)] *)
Definition select (i : Z) (app : App) : prog (verdict * App) :=
  if len (playlists app) =? 0 then Ret (CrashZeroDivision, app)
  else Ret (Continue, mkApp (player app) (playlists app) (i mod len (playlists app))).

(** The if/elif chain on the key read by [getch()]; -1 is no key. *)
Definition handle_key (key : Z) (app : App) : prog (verdict * App) :=
  if key =? -1 then Ret (Continue, app)
  else if (key =? 113) || (key =? 81) || (key =? 27) then Ret (Break, app)
  else if (key =? KEY_UP) || (key =? 107) then select (selected_index app - 1) app
  else if (key =? KEY_DOWN) || (key =? 106) then select (selected_index app + 1) app
  else if (key =? 10) || (key =? 13) then
    on_player (selected_playlist <- py_index (playlists app) (selected_index app) ;;
               start_playlist selected_playlist) app
  else if (key =? 115) || (key =? 83) then on_player toggle_shuffle app
  else if key =? 32 then on_player toggle_play_pause app
  else if (key =? 110) || (key =? 78) then on_player next_song app
  else if (key =? 112) || (key =? 80) then on_player previous_song app
  else Ret (Continue, app).

(** The browser's cursor is on one of the playlists. *)
Definition selection_ok (app : App) : Prop :=
  0 <= selected_index app < len (playlists app).

(** The keys that move the cursor. *)
Definition is_up (key : Z) : Prop := key = KEY_UP \/ key = 107.
Definition is_down (key : Z) : Prop := key = KEY_DOWN \/ key = 106.
Definition is_enter (key : Z) : Prop := key = 10 \/ key = 13.

(* ===================================================================== *)
(** ** check_dependencies *)
(* ===================================================================== *)

(** One entry of the list the function returns; [fix_] is its 'fix' key. *)
Record issue : Type := {
  issue_type : string;
  message : string;
  fix_ : string
}.

(** The newline of the fix texts. *)
Definition nl : string := String (Ascii.ascii_of_nat 10) EmptyString.

Definition mpv_issue : issue :=
  {| issue_type := "mpv";
     message := String.append PLAYER_CMD " is not installed or not in PATH";
     fix_ := String.concat nl
              [String.append "Install " (String.append PLAYER_CMD ":");
               "  Arch: sudo pacman -S mpv";
               "  Debian/Ubuntu: sudo apt install mpv";
               "  Fedora: sudo dnf install mpv"] |}.

Definition directory_issue (dir : string) : issue :=
  {| issue_type := "directory";
     message := String.append "Playlists directory does not exist: " dir;
     fix_ := String.concat nl
              ["Create the directory:"; String.append "  mkdir -p " dir] |}.

Definition playlists_issue (dir : string) : issue :=
  {| issue_type := "playlists";
     message := String.append "No .m3u8 playlist files found in " dir;
     fix_ := String.concat nl
              ["Add .m3u8 playlist files to:"; String.append "  " dir; "";
               "Example playlist format:"; "  #EXTM3U";
               "  /path/to/song1.mp3"; "  /path/to/song2.mp3"] |}.

(** [dir] is [str(PLAYLISTS_DIR)]; [version] is what running
    [mpv --version] came to (None: it ran); [dir_exists] and [m3u8_files]
    are what the file system shows of the playlists directory. *)
Definition check_dependencies (dir : string) (version : option exn)
           (dir_exists : bool) (m3u8_files : list string) : outcome (list issue) :=
  let checked :=
    match version with
    | None => Normal []
    | Some e =>
        if caught_by [FileNotFoundError; TimeoutExpired] e then Normal [mpv_issue]
        else Raised e
    end in
  match checked with
  | Raised e => Raised e
  | Normal issues =>
      if negb dir_exists then Normal (issues ++ [directory_issue dir])%list
      else if is_empty m3u8_files then Normal (issues ++ [playlists_issue dir])%list
      else Normal issues
  end.


(* ===================================================================== *)
(** ** Read-backs of the pause property *)
(* ===================================================================== *)

(** A JSON number, boolean or null: ['data' in v] raises TypeError. *)
Definition is_scalar (v : pyval) : bool :=
  match v with
  | PNone | PBool _ | PInt _ | PFloat _ => true
  | _ => false
  end.

(** A read-back that gives no state and that neither handler of
    toggle_play_pause names: bytes that are not UTF-8, on which
    [.decode('utf-8')] raises UnicodeDecodeError, or a JSON scalar, on
    which the membership test raises TypeError.  [e] is the exception. *)
Definition unhandled_readback (readback : payload) (e : exn) : Prop :=
  (readback = NotUtf8 /\ e = UnicodeDecodeError) \/
  (exists v, readback = Json v /\ is_scalar v = true /\ e = TypeError).

(** The player answers the cycle command, and the query of the pause
    property with [readback]. *)
Definition reading_back (readback : payload) : oracle :=
  fun n ev =>
    match ev as e return answer e with
    | SockRecv _ => if Nat.eqb n 6 then inr readback else inr (Json (PDict []))
    | e => default_answer e
    end.

(* ===================================================================== *)
(** * Properties *)
(* ===================================================================== *)

(* ===================================================================== *)
(** ** Reasoning about programs *)
(* ===================================================================== *)

Lemma always_mono (R : Type) (p : prog R) (P Q : R -> Prop) :
  (forall r, P r -> Q r) -> always p P -> always p Q.
Proof.
  intros HPQ. induction p as [r | ev k IH]; simpl.
  - apply HPQ.
  - intros H a. apply IH, H.
Qed.

Lemma always_pbind (R T : Type) (p : prog R) (f : R -> prog T) (Q : T -> Prop) :
  always p (fun r => always (f r) Q) -> always (pbind p f) Q.
Proof.
  induction p as [r | ev k IH]; simpl.
  - trivial.
  - intros H a. apply IH, H.
Qed.

Lemma always_run (R : Type) (p : prog R) (Q : R -> Prop) :
  always p Q -> forall o n, Q (snd (run o n p)).
Proof.
  induction p as [r | ev k IH]; simpl; intros H o n.
  - exact H.
  - specialize (IH (o n ev) (H (o n ev)) o (S n)).
    destruct (run o (S n) (k (o n ev))). exact IH.
Qed.

Lemma always_state_after (A : Type) (m : M A) (self : MusicPlayer)
      (Q : MusicPlayer -> Prop) :
  always (m self) (fun r => Q (snd r)) -> forall o, Q (state_after o m self).
Proof.
  intros H o. unfold state_after, result.
  exact (always_run (m self) (fun r => Q (snd r)) H o 0%nat).
Qed.

Lemma always_bind (A B : Type) (m : M A) (f : A -> M B) (self : MusicPlayer)
      (Q : outcome B * MusicPlayer -> Prop) :
  always (m self)
    (fun r => match fst r with
              | Normal a => always (f a (snd r)) Q
              | Raised e => Q (Raised e, snd r)
              end) ->
  always (bind m f self) Q.
Proof.
  intros H. unfold bind. apply always_pbind.
  eapply always_mono; [ | exact H ].
  intros [[a | e] s']; simpl; trivial.
Qed.

(** Unfolding the monad down to [Ret] and [Vis]. *)
Ltac unfold_m :=
  cbv beta iota zeta delta
    [bind try_except dispatch gets modify ret raise perform check value pbind
     fst snd set_current_playlist set_songs set_current_song_index set_shuffle
     set_player_process set_ipc_socket set_paused set_current_song_info
     with_current_playlist with_songs with_current_song_index with_shuffle
     with_player_process with_ipc_socket with_paused with_current_song_info
     py_float
     send_signal randbelow decode json_loads py_contains py_getitem
     sock_connect sock_send sock_recv flip_paused
     current_playlist songs current_song_index shuffle player_process
     ipc_socket paused current_song_info].

(** Case analysis on every answer and every test a method makes. *)
Ltac crunch :=
  repeat (unfold_m; simpl always; intros;
          try match goal with
          | |- context [match ?x with _ => _ end] => destruct x eqn:?
          end).

(* ===================================================================== *)
(** ** Lists: update, swap, slices *)
(* ===================================================================== *)

Lemma update_length (A : Type) (l : list A) (i : nat) (v : A) :
  List.length (update l i v) = List.length l.
Proof.
  revert i. induction l as [| x l IH]; intros [| i]; simpl; auto.
Qed.

Lemma nth_update (A : Type) (l : list A) (i k : nat) (v d : A) :
  nth k (update l i v) d =
  if (Nat.eqb k i && Nat.ltb i (List.length l))%bool then v else nth k l d.
Proof.
  revert i k. induction l as [| x l IH]; intros i k.
  - simpl. rewrite andb_false_r. destruct i; reflexivity.
  - destruct i as [| i], k as [| k]; simpl; auto.
Qed.

Lemma swap_length (x : list string) (i j : nat) :
  List.length (swap x i j) = List.length x.
Proof. unfold swap. now rewrite !update_length. Qed.

Lemma nth_swap (x : list string) (i j k : nat) :
  (i < List.length x)%nat -> (j < List.length x)%nat ->
  nth k (swap x i j) "" =
  nth (if Nat.eqb k j then i else if Nat.eqb k i then j else k) x "".
Proof.
  intros Hi Hj. unfold swap. rewrite !nth_update, update_length.
  apply Nat.ltb_lt in Hi, Hj. rewrite Hi, Hj, !andb_true_r.
  destruct (Nat.eqb_spec k j), (Nat.eqb_spec k i); subst; reflexivity.
Qed.

(** Exchanging two positions rearranges the list. *)
Lemma swap_permutation (x : list string) (i j : nat) :
  (i < List.length x)%nat -> (j < List.length x)%nat ->
  Permutation x (swap x i j).
Proof.
  intros Hi Hj.
  apply (Permutation_nth x (swap x i j) "").
  split; [ apply swap_length | ].
  exists (fun k => if Nat.eqb k j then i else if Nat.eqb k i then j else k).
  repeat split.
  - intros k Hk. destruct (Nat.eqb_spec k j), (Nat.eqb_spec k i); lia.
  - intros a b Ha Hb.
    destruct (Nat.eqb_spec a j), (Nat.eqb_spec a i),
             (Nat.eqb_spec b j), (Nat.eqb_spec b i); lia.
  - intros k Hk. apply nth_swap; assumption.
Qed.

Lemma slices_rejoin (A : Type) (l : list A) (i : Z) :
  (slice_to l i ++ slice_from l i)%list = l.
Proof. unfold slice_to, slice_from. apply firstn_skipn. Qed.

Lemma slice_bound_in_range (A : Type) (l : list A) (i : Z) :
  0 <= i <= len l -> slice_bound l i = Z.to_nat i.
Proof.
  intros H. unfold slice_bound.
  destruct (Z.ltb_spec i 0); [ lia | ]. f_equal. lia.
Qed.

(* ===================================================================== *)
(** ** random.shuffle *)
(* ===================================================================== *)

Lemma shuffle_down_permutes (i : nat) (x : list string) (self : MusicPlayer) :
  (i <= List.length x - 1)%nat ->
  always (shuffle_down i x self)
    (fun r => snd r = self /\ exists x', fst r = Normal x' /\ Permutation x x').
Proof.
  revert x. induction i as [| i IH]; intros x Hi.
  - simpl. split; [ reflexivity | ]. exists x. split; [ reflexivity | apply Permutation_refl ].
  - simpl shuffle_down. unfold_m. simpl always. intros a.
    assert (Hj : (Nat.modulo a (S (S i)) < S (S i))%nat)
      by (apply Nat.mod_upper_bound; discriminate).
    assert (Hp : Permutation x (swap x (S i) (Nat.modulo a (S (S i)))))
      by (apply swap_permutation; lia).
    eapply always_mono; [ | apply IH; rewrite swap_length; lia ].
    intros r [Hs [x' [Hr Hx]]]. split; [ exact Hs | ].
    exists x'. split; [ exact Hr | ]. eapply Permutation_trans; eassumption.
Qed.

Lemma random_shuffle_permutes (x : list string) (self : MusicPlayer) :
  always (random_shuffle x self)
    (fun r => snd r = self /\ exists x', fst r = Normal x' /\ Permutation x x').
Proof. unfold random_shuffle. apply shuffle_down_permutes. lia. Qed.

(* ===================================================================== *)
(** ** What each method leaves alone *)
(* ===================================================================== *)

Lemma same_session_index_ok (s s' : MusicPlayer) :
  same_session s s' -> index_ok s -> index_ok s'.
Proof.
  unfold same_session, index_ok. intros (_ & Hl & Hi & _) H. rewrite Hl, Hi. exact H.
Qed.

Lemma stop_playback_frame (self : MusicPlayer) :
  always (stop_playback self) (fun r => same_session self (snd r)).
Proof.
  destruct self as [pl l i sh p f pa info].
  unfold stop_playback. crunch.
  all: unfold same_session; cbn; auto.
Qed.

Lemma play_current_song_frame (self : MusicPlayer) :
  always (play_current_song self) (fun r => same_session self (snd r)).
Proof.
  destruct self as [pl l i sh p f pa info].
  unfold play_current_song, stop_playback, py_index. crunch.
  all: unfold same_session; cbn; auto.
Qed.

Lemma toggle_play_pause_frame (self : MusicPlayer) :
  always (toggle_play_pause self) (fun r => same_session self (snd r)).
Proof.
  destruct self as [pl l i sh p f pa info].
  unfold toggle_play_pause, not_running, no_socket, signal_pause. crunch.
  all: unfold same_session; cbn; auto.
Qed.

(** The progress query writes no field at all. *)
Lemma get_progress_pure (str_to_float : string -> option float) (self : MusicPlayer) :
  always (get_progress str_to_float self) (fun r => snd r = self).
Proof.
  destruct self as [pl l i sh p f pa info].
  unfold get_progress, query, extract, not_running, no_socket. crunch.
  all: reflexivity.
Qed.

Lemma mod_len_in_range (l : list string) (i : Z) :
  l <> [] -> 0 <= i mod len l < len l.
Proof.
  intros Hl. apply Z.mod_pos_bound. unfold len.
  destruct l; [ congruence | simpl; lia ].
Qed.

Lemma is_empty_false (A : Type) (l : list A) : is_empty l = false -> l <> [].
Proof. destruct l; simpl; congruence. Qed.

Lemma is_empty_true (A : Type) (l : list A) : is_empty l = true -> l = [].
Proof. destruct l; simpl; congruence. Qed.

(** After [next_song] the cursor is one further, modulo the length. *)
Lemma next_song_index (self : MusicPlayer) :
  always (next_song self)
    (fun r => songs (snd r) = songs self /\
              current_song_index (snd r) =
              if is_empty (songs self) then current_song_index self
              else (current_song_index self + 1) mod len (songs self)).
Proof.
  destruct self as [pl l i sh p f pa info].
  unfold next_song. unfold_m. destruct (is_empty l) eqn:Hl.
  - simpl. auto.
  - eapply always_mono; [ | apply play_current_song_frame ].
    intros r (_ & H1 & H2 & _). simpl in *. auto.
Qed.

Lemma previous_song_index (self : MusicPlayer) :
  always (previous_song self)
    (fun r => songs (snd r) = songs self /\
              current_song_index (snd r) =
              if is_empty (songs self) then current_song_index self
              else (current_song_index self - 1) mod len (songs self)).
Proof.
  destruct self as [pl l i sh p f pa info].
  unfold previous_song. unfold_m. destruct (is_empty l) eqn:Hl.
  - simpl. auto.
  - eapply always_mono; [ | apply play_current_song_frame ].
    intros r (_ & H1 & H2 & _). simpl in *. auto.
Qed.

Lemma stepped_index_ok (s s' : MusicPlayer) (j : Z) :
  songs s' = songs s ->
  current_song_index s' =
    (if is_empty (songs s) then current_song_index s else j mod len (songs s)) ->
  index_ok s -> index_ok s'.
Proof.
  unfold index_ok. intros Hl Hi H. rewrite Hl, Hi.
  destruct (is_empty (songs s)) eqn:E; [ exact H | ].
  intros _. apply mod_len_in_range. apply is_empty_false, E.
Qed.

(** [toggle_shuffle]: the flag flips, the list keeps its head up to the
    cursor, the tail is rearranged, nothing else moves. *)
Lemma toggle_shuffle_effect (self : MusicPlayer) :
  always (toggle_shuffle self)
    (fun r =>
       fst r = Normal tt /\
       exists tail,
         Permutation (slice_from (songs self) (current_song_index self + 1)) tail /\
         snd r = mkPlayer (current_playlist self)
                   (slice_to (songs self) (current_song_index self + 1) ++ tail)%list
                   (current_song_index self) (negb (shuffle self))
                   (player_process self) (ipc_socket self) (paused self)
                   (current_song_info self)).
Proof.
  destruct self as [pl l i sh p f pa info].
  unfold toggle_shuffle. unfold_m.
  destruct (negb (is_empty l) && (i <? len l))%bool.
  - destruct (negb (is_empty (slice_from l (i + 1)))).
    + apply always_pbind.
      eapply always_mono; [ | apply random_shuffle_permutes ].
      intros [out s'] [Hs [tail [Hr Hp]]]. simpl in Hs, Hr. subst out s'. simpl.
      split; [ reflexivity | ]. exists tail. split; [ exact Hp | reflexivity ].
    + simpl. split; [ reflexivity | ].
      exists (slice_from l (i + 1)).
      split; [ apply Permutation_refl | now rewrite slices_rejoin ].
  - simpl. split; [ reflexivity | ].
    exists (slice_from l (i + 1)).
    split; [ apply Permutation_refl | now rewrite slices_rejoin ].
Qed.

Lemma start_playlist_index_ok (playlist_name : string) (self : MusicPlayer) :
  always (start_playlist playlist_name self) (fun r => index_ok (snd r)).
Proof.
  destruct self as [pl l i sh p f pa info].
  unfold start_playlist. unfold_m. simpl always. intros parsed.
  destruct (is_empty parsed) eqn:He.
  - simpl. unfold index_ok. simpl. apply is_empty_true in He. congruence.
  - assert (Hplay : forall l', List.length l' = List.length parsed ->
               always (play_current_song (mkPlayer (Some playlist_name) l' 0 sh p f pa info))
                 (fun r => index_ok (snd r))).
    { intros l' Hlen. eapply always_mono; [ | apply play_current_song_frame ].
      intros r (_ & H1 & H2 & _). unfold index_ok. rewrite H1, H2. simpl.
      intros _. unfold len. rewrite Hlen.
      destruct parsed; [ discriminate | simpl; lia ]. }
    destruct sh.
    + do 2 apply always_pbind.
      eapply always_mono; [ | apply random_shuffle_permutes ].
      intros [out s'] [Hs [l' [Hr Hp]]]. simpl in Hs, Hr. subst out s'. simpl.
      apply Hplay. symmetry. apply Permutation_length, Hp.
    + apply Hplay. reflexivity.
Qed.

Lemma check_player_status_index_ok (self : MusicPlayer) :
  index_ok self -> always (check_player_status self) (fun r => index_ok (snd r)).
Proof.
  intros H. unfold check_player_status, bind, gets, pbind. simpl fst. simpl snd.
  destruct (player_process self) as [proc | ]; [ | exact H ].
  unfold perform, ret. simpl. intros [code | ]; [ | exact H ].
  eapply always_mono; [ | apply next_song_index ].
  intros r [Hl Hi]. exact (stepped_index_ok _ _ Hl Hi H).
Qed.

(* ===================================================================== *)
(** ** Runs in a given world *)
(* ===================================================================== *)

Lemma along_run (R : Type) (p : prog R) (o : oracle) (n : nat)
      (Q : list event -> R -> Prop) :
  along o n p Q ->
  Q (map (@projT1 event answer) (fst (run o n p))) (snd (run o n p)).
Proof.
  revert n Q. induction p as [r | ev k IH]; simpl; intros n Q H.
  - exact H.
  - specialize (IH (o n ev) (S n) _ H).
    destruct (run o (S n) (k (o n ev))). exact IH.
Qed.

Lemma along_result (A : Type) (m : M A) (self : MusicPlayer) (o : oracle)
      (Q : list event -> outcome A -> MusicPlayer -> Prop) :
  along o 0 (m self) (fun t r => Q t (fst r) (snd r)) ->
  Q (calls o (m self)) (outcome_of o m self) (state_after o m self).
Proof.
  intros H. unfold calls, outcome_of, state_after, result.
  exact (along_run (m self) o 0 (fun t r => Q t (fst r) (snd r)) H).
Qed.

Lemma along_mono (R : Type) (p : prog R) (o : oracle) (n : nat)
      (P Q : list event -> R -> Prop) :
  (forall t r, P t r -> Q t r) -> along o n p P -> along o n p Q.
Proof.
  revert n P Q. induction p as [r | ev k IH]; simpl; intros n P Q HPQ.
  - apply HPQ.
  - apply IH. intros t r. apply HPQ.
Qed.

Lemma always_along (R : Type) (p : prog R) (o : oracle) (n : nat) (Q : R -> Prop) :
  always p Q -> along o n p (fun _ r => Q r).
Proof.
  revert n. induction p as [r | ev k IH]; simpl; intros n H.
  - exact H.
  - apply IH, H.
Qed.

Lemma along_pbind (R T : Type) (p : prog R) (f : R -> prog T) (o : oracle) (n : nat)
      (Q : list event -> T -> Prop) :
  along o n p
    (fun t r => along o (n + List.length t) (f r) (fun t' r' => Q (t ++ t')%list r')) ->
  along o n (pbind p f) Q.
Proof.
  revert n Q. induction p as [r | ev k IH]; simpl; intros n Q H.
  - rewrite Nat.add_0_r in H. exact H.
  - apply IH. eapply along_mono; [ | exact H ].
    intros t r. simpl. rewrite Nat.add_succ_r. trivial.
Qed.

(* ===================================================================== *)
(** ** The index invariant *)
(* ===================================================================== *)

Lemma same_length_index_ok (s s' : MusicPlayer) :
  List.length (songs s') = List.length (songs s) ->
  current_song_index s' = current_song_index s ->
  index_ok s -> index_ok s'.
Proof.
  unfold index_ok, len. intros Hl Hi H Hne. rewrite Hl, Hi. apply H.
  intros E. rewrite E in Hl. destruct (songs s'); simpl in Hl; congruence.
Qed.

Lemma init_index_ok : index_ok init.
Proof. unfold index_ok, init. simpl. congruence. Qed.

Lemma method_keeps_index_ok (str_to_float : string -> option float)
      (op : operation) (self : MusicPlayer) :
  index_ok self ->
  always (method str_to_float op self) (fun r => index_ok (snd r)).
Proof.
  intros H. destruct op; simpl method.
  - apply start_playlist_index_ok.
  - eapply always_mono; [ | apply play_current_song_frame ].
    intros r Hr. exact (same_session_index_ok Hr H).
  - eapply always_mono; [ | apply stop_playback_frame ].
    intros r Hr. exact (same_session_index_ok Hr H).
  - eapply always_mono; [ | apply next_song_index ].
    intros r [Hl Hi]. exact (stepped_index_ok _ _ Hl Hi H).
  - eapply always_mono; [ | apply previous_song_index ].
    intros r [Hl Hi]. exact (stepped_index_ok _ _ Hl Hi H).
  - eapply always_mono; [ | apply toggle_shuffle_effect ].
    intros r (_ & tail & Hp & Hs). rewrite Hs.
    refine (@same_length_index_ok self _ _ _ H); simpl; [ | reflexivity ].
    rewrite length_app, <- (Permutation_length Hp), <- length_app.
    now rewrite slices_rejoin.
  - eapply always_mono; [ | apply toggle_play_pause_frame ].
    intros r Hr. exact (same_session_index_ok Hr H).
  - apply always_bind.
    eapply always_mono; [ | apply get_progress_pure ].
    intros [[a | e] s'] Hs; simpl in Hs; subst s'; simpl; exact H.
  - apply check_player_status_index_ok, H.
Qed.

Lemma reachable_index_ok (str_to_float : string -> option float) (self : MusicPlayer) :
  reachable str_to_float self -> index_ok self.
Proof.
  induction 1 as [| self op o _ IH].
  - apply init_index_ok.
  - apply (always_state_after (method str_to_float op) self index_ok).
    apply method_keeps_index_ok, IH.
Qed.

(** C1.  In every state the object can be in — the initial one and the one
    left by any of start_playlist, play_current_song, stop_playback,
    next_song, previous_song, toggle_shuffle, toggle_play_pause,
    get_progress and check_player_status, whatever the outside world
    answers — a non-empty song list has its cursor inside:
    0 <= current_song_index < len(songs). *)
Theorem index_within_songs (str_to_float : string -> option float) (self : MusicPlayer) :
  reachable str_to_float self ->
  songs self <> [] ->
  0 <= current_song_index self < len (songs self).
Proof.
  intros Hr. change (index_ok self).
  induction Hr as [| self op o _ IH].
  - apply init_index_ok.
  - apply (always_state_after (method str_to_float op) self index_ok).
    apply method_keeps_index_ok, IH.
Qed.

Lemma index_within_songs_witness :
  let self := state_after three_tracks (method (fun _ => None) PreviousSong)
                (state_after three_tracks (method (fun _ => None) (StartPlaylist "p")) init) in
  songs self = abc /\ 0 <= current_song_index self < len (songs self).
Proof.
  split; [ reflexivity | ].
  apply (index_within_songs (str_to_float := fun _ => None)).
  - apply reach_step, reach_step, reach_init.
  - vm_compute. discriminate.
Defined.

(* ===================================================================== *)
(** ** Wrap-around *)
(* ===================================================================== *)

Lemma next_song_state (o : oracle) (self : MusicPlayer) :
  songs self <> [] ->
  songs (state_after o next_song self) = songs self /\
  current_song_index (state_after o next_song self) =
    (current_song_index self + 1) mod len (songs self).
Proof.
  intros Hne.
  generalize (always_state_after next_song self
                (fun s' => songs s' = songs self /\
                           current_song_index s' =
                           if is_empty (songs self) then current_song_index self
                           else (current_song_index self + 1) mod len (songs self))
                (next_song_index self) o).
  destruct (songs self) eqn:E; [ congruence | ]. simpl is_empty. trivial.
Qed.

Lemma next_songs_index (worlds : list oracle) (self : MusicPlayer) :
  songs self <> [] ->
  0 <= current_song_index self < len (songs self) ->
  songs (next_songs worlds self) = songs self /\
  current_song_index (next_songs worlds self) =
    (current_song_index self + Z.of_nat (List.length worlds)) mod len (songs self).
Proof.
  revert self. induction worlds as [| o rest IH]; intros self Hne Hin.
  - simpl. split; [ reflexivity | ]. rewrite Z.add_0_r. symmetry. apply Z.mod_small, Hin.
  - destruct (@next_song_state o self Hne) as [Hl Hi].
    simpl next_songs. destruct (IH (state_after o next_song self)) as [Hl' Hi'].
    + rewrite Hl. exact Hne.
    + rewrite Hl, Hi. apply Z.mod_pos_bound. lia.
    + rewrite Hl', Hi', Hl, Hi. split; [ reflexivity | ].
      rewrite Zplus_mod_idemp_l. f_equal. simpl List.length. lia.
Qed.

Lemma next_songs_full_turn (worlds : list oracle) (self : MusicPlayer) :
  songs self <> [] ->
  0 <= current_song_index self < len (songs self) ->
  List.length worlds = List.length (songs self) ->
  current_song_index (next_songs worlds self) = current_song_index self.
Proof.
  intros Hne Hi Hn. destruct (@next_songs_index worlds self Hne Hi) as [_ H].
  rewrite H, Hn. fold (len (songs self)).
  rewrite <- (Z.mul_1_l (len (songs self))) at 1.
  rewrite Z.mod_add by lia. apply Z.mod_small, Hi.
Qed.

(** Loading a playlist with shuffle off: the tracks in file order, the
    cursor on the first. *)
Lemma start_playlist_in_order (o : oracle) (playlist_name : string) (self : MusicPlayer) :
  shuffle self = false ->
  o 0%nat (ParseM3u8 playlist_name) <> [] ->
  songs (state_after o (start_playlist playlist_name) self) = o 0%nat (ParseM3u8 playlist_name) /\
  current_song_index (state_after o (start_playlist playlist_name) self) = 0.
Proof.
  intros Hsh Hne.
  apply (along_result (start_playlist playlist_name) self o
           (fun _ _ s' => songs s' = o 0%nat (ParseM3u8 playlist_name) /\
                          current_song_index s' = 0)).
  destruct self as [pl l i sh p f pa info]. simpl in Hsh. subst sh.
  unfold start_playlist. unfold_m. simpl along.
  destruct (o 0%nat (ParseM3u8 playlist_name)) as [| a parsed] eqn:E; [ congruence | ].
  simpl.
  apply always_along.
  eapply always_mono; [ | apply play_current_song_frame ].
  intros r (_ & H1 & H2 & _). simpl in *. auto.
Qed.

(** C2.  Wrap-around: in a session with n tracks and the cursor on one of
    them, n calls of next_song bring the cursor back to where it was; this
    holds in every state the object can reach.  With the playlist
    a.mp3, b.mp3, c.mp3 and shuffle off, start_playlist keeps the order and
    puts the cursor on 0, and three next_song calls move it to 1, 2, 0. *)
Theorem next_song_wraps_around :
  (forall (self : MusicPlayer) (worlds : list oracle),
      songs self <> [] ->
      0 <= current_song_index self < len (songs self) ->
      List.length worlds = List.length (songs self) ->
      current_song_index (next_songs worlds self) = current_song_index self) /\
  (forall (str_to_float : string -> option float) (self : MusicPlayer) (worlds : list oracle),
      reachable str_to_float self ->
      songs self <> [] ->
      List.length worlds = List.length (songs self) ->
      current_song_index (next_songs worlds self) = current_song_index self) /\
  (forall (playlist_name : string) (o0 o1 o2 o3 : oracle),
      o0 0%nat (ParseM3u8 playlist_name) = abc ->
      let s0 := state_after o0 (start_playlist playlist_name) init in
      let s1 := state_after o1 next_song s0 in
      let s2 := state_after o2 next_song s1 in
      let s3 := state_after o3 next_song s2 in
      songs s0 = abc /\ current_song_index s0 = 0 /\
      current_song_index s1 = 1 /\ current_song_index s2 = 2 /\
      current_song_index s3 = 0).
Proof.
  split; [ | split ].
  - intros self worlds. apply next_songs_full_turn.
  - intros stf self worlds Hr Hne. apply next_songs_full_turn; [ exact Hne | ].
    exact (reachable_index_ok Hr Hne).
  - intros name o0 o1 o2 o3 Hparse s0 s1 s2 s3.
    assert (Habc : abc <> []) by discriminate.
    destruct (@start_playlist_in_order o0 name init eq_refl) as [Hl0 Hi0];
      [ rewrite Hparse; exact Habc | ].
    rewrite Hparse in Hl0. fold s0 in Hl0, Hi0.
    destruct (@next_song_state o1 s0) as [Hl1 Hi1]; [ rewrite Hl0; exact Habc | ].
    fold s1 in Hl1, Hi1. rewrite Hl0 in Hl1. rewrite Hl0, Hi0 in Hi1.
    destruct (@next_song_state o2 s1) as [Hl2 Hi2]; [ rewrite Hl1; exact Habc | ].
    fold s2 in Hl2, Hi2. rewrite Hl1 in Hl2. rewrite Hl1, Hi1 in Hi2.
    destruct (@next_song_state o3 s2) as [Hl3 Hi3]; [ rewrite Hl2; exact Habc | ].
    fold s3 in Hl3, Hi3. rewrite Hl2, Hi2 in Hi3.
    repeat split; assumption.
Qed.

Lemma next_song_wraps_around_witness :
  let s0 := state_after three_tracks (start_playlist "p") init in
  let s1 := state_after three_tracks next_song s0 in
  current_song_index s1 = 1 /\
  current_song_index (next_songs [three_tracks; no_player; quiet] s1) = 1.
Proof.
  split; [ reflexivity | ].
  apply (proj1 next_song_wraps_around).
  - vm_compute. discriminate.
  - vm_compute. split; [ discriminate | reflexivity ].
  - reflexivity.
Defined.

(* ===================================================================== *)
(** ** Shuffle keeps the history *)
(* ===================================================================== *)

Lemma toggle_shuffle_state (o : oracle) (self : MusicPlayer) :
  outcome_of o toggle_shuffle self = Normal tt /\
  exists tail,
    Permutation (slice_from (songs self) (current_song_index self + 1)) tail /\
    state_after o toggle_shuffle self =
      mkPlayer (current_playlist self)
        (slice_to (songs self) (current_song_index self + 1) ++ tail)%list
        (current_song_index self) (negb (shuffle self))
        (player_process self) (ipc_socket self) (paused self)
        (current_song_info self).
Proof.
  unfold outcome_of, state_after, result.
  exact (always_run (toggle_shuffle self) _ (toggle_shuffle_effect self) o 0%nat).
Qed.

Lemma history_kept (l tail : list string) (i : Z) :
  0 <= i < len l ->
  Permutation (slice_from l (i + 1)) tail ->
  let k := Z.to_nat (i + 1) in
  firstn k (slice_to l (i + 1) ++ tail) = firstn k l /\
  Permutation (skipn k l) (skipn k (slice_to l (i + 1) ++ tail)) /\
  List.length (slice_to l (i + 1) ++ tail) = List.length l.
Proof.
  intros Hi Hp k. unfold slice_to, slice_from in *.
  assert (Hb : slice_bound l (i + 1) = k) by (apply slice_bound_in_range; lia).
  rewrite Hb in *.
  assert (Hkl : (k <= List.length l)%nat) by (unfold k, len in *; lia).
  clearbody k. clear Hb Hi.
  assert (Hk : List.length (firstn k l) = k) by (apply firstn_length_le, Hkl).
  repeat split.
  - rewrite firstn_app, Hk, Nat.sub_diag. simpl. rewrite app_nil_r.
    rewrite (@firstn_all2 _ k (firstn k l)) by lia. reflexivity.
  - rewrite skipn_app, Hk, Nat.sub_diag. simpl.
    rewrite (@skipn_all2 _ k (firstn k l)) by lia. exact Hp.
  - rewrite length_app, <- (Permutation_length Hp), <- length_app.
    now rewrite firstn_skipn.
Qed.

(** C8.  With the cursor on a track, toggle_shuffle flips the shuffle flag
    and leaves the cursor and the tracks up to and including the current
    one as they are; the tracks after it are a rearrangement of what they
    were.  A second toggle_shuffle right after restores the flag (and
    again only rearranges the tracks after the cursor). *)
Theorem toggle_shuffle_keeps_history (self : MusicPlayer) (o1 o2 : oracle) :
  songs self <> [] ->
  0 <= current_song_index self < len (songs self) ->
  let k := Z.to_nat (current_song_index self + 1) in
  let s1 := state_after o1 toggle_shuffle self in
  let s2 := state_after o2 toggle_shuffle s1 in
  (outcome_of o1 toggle_shuffle self = Normal tt /\
   shuffle s1 = negb (shuffle self) /\
   current_song_index s1 = current_song_index self /\
   firstn k (songs s1) = firstn k (songs self) /\
   Permutation (skipn k (songs self)) (skipn k (songs s1))) /\
  (outcome_of o2 toggle_shuffle s1 = Normal tt /\
   shuffle s2 = shuffle self /\
   current_song_index s2 = current_song_index self /\
   firstn k (songs s2) = firstn k (songs self) /\
   Permutation (skipn k (songs self)) (skipn k (songs s2))).
Proof.
  intros Hne Hi k s1 s2.
  destruct (toggle_shuffle_state o1 self) as [Ho1 [tail1 [Hp1 Hs1]]].
  fold s1 in Hs1.
  destruct (@history_kept (songs self) tail1 (current_song_index self) Hi Hp1)
    as (Hf1 & Hk1 & Hlen1). fold k in Hf1, Hk1.
  assert (E1 : songs s1 = (slice_to (songs self) (current_song_index self + 1) ++ tail1)%list)
    by (rewrite Hs1; reflexivity).
  assert (I1 : current_song_index s1 = current_song_index self)
    by (rewrite Hs1; reflexivity).
  assert (F1 : shuffle s1 = negb (shuffle self)) by (rewrite Hs1; reflexivity).
  split.
  - rewrite E1. auto.
  - destruct (toggle_shuffle_state o2 s1) as [Ho2 [tail2 [Hp2 Hs2]]].
    fold s2 in Hs2.
    assert (Hi' : 0 <= current_song_index s1 < len (songs s1))
      by (rewrite I1, E1; unfold len; rewrite Hlen1; exact Hi).
    destruct (@history_kept (songs s1) tail2 (current_song_index s1) Hi' Hp2)
      as (Hf2 & Hk2 & _).
    rewrite I1 in Hf2, Hk2. fold k in Hf2, Hk2.
    assert (E2 : songs s2 = (slice_to (songs s1) (current_song_index self + 1) ++ tail2)%list)
      by (rewrite Hs2, I1; reflexivity).
    repeat split.
    + exact Ho2.
    + rewrite Hs2. simpl. rewrite F1. apply negb_involutive.
    + rewrite Hs2. simpl. exact I1.
    + rewrite E2, Hf2, E1. exact Hf1.
    + rewrite E2. eapply Permutation_trans; [ | exact Hk2 ]. rewrite E1. exact Hk1.
Qed.

Lemma toggle_shuffle_keeps_history_witness :
  let self := state_after three_tracks (start_playlist "p") init in
  let s1 := state_after quiet toggle_shuffle self in
  let s2 := state_after quiet toggle_shuffle s1 in
  songs s1 = ["a.mp3"; "c.mp3"; "b.mp3"] /\
  shuffle s1 = true /\ shuffle s2 = false /\
  firstn 1 (songs s2) = ["a.mp3"].
Proof.
  intros self s1 s2.
  assert (Hne : songs self <> []) by (vm_compute; discriminate).
  assert (Hi : 0 <= current_song_index self < len (songs self))
    by (vm_compute; split; [ discriminate | reflexivity ]).
  destruct (@toggle_shuffle_keeps_history self quiet quiet Hne Hi)
    as [(_ & F1 & _) (_ & F2 & _ & H2 & _)].
  split; [ reflexivity | ].
  split; [ exact F1 | ].
  split; [ exact F2 | exact H2 ].
Defined.

(* ===================================================================== *)
(** ** Nothing to play, nothing to pause, nothing to measure *)
(* ===================================================================== *)

(** C9.  When the playlist resolves to no track, start_playlist returns
    normally after that one lookup: it records the playlist name and the
    empty list and does nothing else.  No song is started, no process is
    spawned or stopped, the cursor is not reset, and every other field is
    as before; from the initial object this is the initial object with the
    name filled in. *)
Theorem start_playlist_empty (o : oracle) (playlist_name : string) (self : MusicPlayer) :
  o 0%nat (ParseM3u8 playlist_name) = [] ->
  outcome_of o (start_playlist playlist_name) self = Normal tt /\
  calls o (start_playlist playlist_name self) = [ParseM3u8 playlist_name] /\
  state_after o (start_playlist playlist_name) self =
    mkPlayer (Some playlist_name) [] (current_song_index self) (shuffle self)
      (player_process self) (ipc_socket self) (paused self) (current_song_info self) /\
  (self = init ->
   state_after o (start_playlist playlist_name) self =
     mkPlayer (Some playlist_name) [] 0 false None None (PBool false) "").
Proof.
  intros Hparse.
  apply (along_result (start_playlist playlist_name) self o
           (fun t out s' =>
              out = Normal tt /\ t = [ParseM3u8 playlist_name] /\
              s' = mkPlayer (Some playlist_name) [] (current_song_index self) (shuffle self)
                     (player_process self) (ipc_socket self) (paused self)
                     (current_song_info self) /\
              (self = init ->
               s' = mkPlayer (Some playlist_name) [] 0 false None None (PBool false) ""))).
  destruct self as [pl l i sh p f pa info].
  unfold start_playlist. unfold_m. simpl along. rewrite Hparse. simpl.
  repeat split. intros E. inversion E. reflexivity.
Qed.

Lemma start_playlist_empty_witness :
  state_after quiet (start_playlist "empty") (state_after three_tracks next_song
     (state_after three_tracks (start_playlist "p") init)) =
  mkPlayer (Some "empty") [] 1 false (Some 1%nat)
    (Some "/tmp/mpv_music_player_4242.sock") (PBool false) "b.mp3".
Proof.
  exact (proj1 (proj2 (proj2
    (@start_playlist_empty quiet "empty"
       (state_after three_tracks next_song
          (state_after three_tracks (start_playlist "p") init)) eq_refl)))).
Defined.

(** C10.  With no process handle, or with a handle whose process has
    exited, toggle_play_pause returns at once: apart from the poll that
    tells it so it makes no call at all — no signal, nothing on the
    channel — and it leaves the paused flag and every other field as they
    were. *)
Theorem toggle_play_pause_not_running (o : oracle) (self : MusicPlayer) :
  player_gone o self ->
  outcome_of o toggle_play_pause self = Normal tt /\
  state_after o toggle_play_pause self = self /\
  calls o (toggle_play_pause self) =
    match player_process self with
    | None => []
    | Some proc => [Poll proc]
    end.
Proof.
  intros Hgone.
  apply (along_result toggle_play_pause self o
           (fun t out s' =>
              out = Normal tt /\ s' = self /\
              t = match player_process self with
                  | None => []
                  | Some proc => [Poll proc]
                  end)).
  destruct self as [pl l i sh p f pa info]. unfold player_gone in Hgone. simpl in Hgone.
  unfold toggle_play_pause, not_running. unfold_m.
  destruct p as [proc | ]; simpl along.
  - destruct (o 0%nat (Poll proc)) as [code | ]; [ | congruence ].
    simpl. auto.
  - auto.
Qed.

Lemma toggle_play_pause_not_running_witness :
  let exited : oracle :=
    fun _ ev => match ev as e return answer e with
                | Poll _ => Some 0
                | e => default_answer e
                end in
  let self := state_after three_tracks (start_playlist "p") init in
  player_process self = Some 1%nat /\
  state_after exited toggle_play_pause self = self /\
  calls exited (toggle_play_pause self) = [Poll 1%nat].
Proof.
  intros exited self. split; [ reflexivity | ].
  assert (Hgone : player_gone exited self) by (vm_compute; discriminate).
  destruct (@toggle_play_pause_not_running exited self Hgone) as (_ & Hs & Hc).
  split; [ exact Hs | exact Hc ].
Defined.



(* ===================================================================== *)
(** ** Read-back after write *)
(* ===================================================================== *)

(** Follow a run whose answers are known from the hypotheses. *)
Ltac follow :=
  repeat (unfold_m;
          cbn [along negb caught_by existsb isinstance exn_eqb exn_base orb];
          try match goal with
              | H : ?o ?n ?ev = _ |- context [?o ?n ?ev] => rewrite H
              | H : truthy ?v = true |- context [truthy ?v] => rewrite H
              end).

Lemma nonempty_path (f : string) : f <> "" -> truthy (PStr f) = true.
Proof. intros H. simpl. apply negb_true_iff, String.eqb_neq, H. Qed.

(** C6.  The read-back of the pause property can fail in a way that
    toggle_play_pause does not handle, and then the flag is not negated.
    When the channel is taken, the cycle command is answered, and the
    reply to the query is not UTF-8 (or is a JSON number, boolean or
    null), the exception of the decoding (of the membership test) is
    named by neither handler: it leaves the method, the paused flag and
    every other field stay as they were, and the socket is not closed.
    The flag is therefore stale, not flipped. *)
Theorem toggle_play_pause_readback_escapes
        (o : oracle) (self : MusicPlayer) (readback : payload) (e : exn) :
  pause_exchange o self readback ->
  unhandled_readback readback e ->
  outcome_of o toggle_play_pause self = Raised e /\
  state_after o toggle_play_pause self = self /\
  (forall b, paused self = PBool b ->
             paused (state_after o toggle_play_pause self)
               <> PBool (negb (truthy (paused self)))) /\
  (forall sock, ~ In (SockClose sock) (calls o (toggle_play_pause self))).
Proof.
  intros (proc & f & sock & cycle_reply & Hp & Hf & Hne & H0 & H1 & H2 & H3 & H4 & H5 & H6)
         Hbad.
  destruct self as [pl l i sh p f' pa info]. simpl in Hp, Hf. subst p f'.
  apply nonempty_path in Hne.
  assert (Hrun : along o 0 (toggle_play_pause (mkPlayer pl l i sh (Some proc) (Some f) pa info))
                   (fun t r => fst r = Raised e /\
                               snd r = mkPlayer pl l i sh (Some proc) (Some f) pa info /\
                               forall s, ~ In (SockClose s) t)).
  { unfold toggle_play_pause, not_running, no_socket. follow.
    destruct Hbad as [[E Ee] | (v & E & Hv & Ee)]; subst readback e.
    - follow. repeat split.
      intros s [C | [C | [C | [C | [C | [C | [C | []]]]]]]]; discriminate C.
    - destruct v; try discriminate Hv; follow; repeat split;
        intros s [C | [C | [C | [C | [C | [C | [C | []]]]]]]]; discriminate C. }
  destruct (@along_result _ toggle_play_pause _ o
              (fun t out s' => out = Raised e /\
                               s' = mkPlayer pl l i sh (Some proc) (Some f) pa info /\
                               forall s, ~ In (SockClose s) t) Hrun)
    as (Hout & Hst & Hcalls).
  split; [ exact Hout | ]. split; [ exact Hst | ]. split; [ | exact Hcalls ].
  intros b Hb. rewrite Hst. simpl in Hb |- *. subst pa. simpl.
  intros C. inversion C as [Hneg]. destruct b; discriminate Hneg.
Qed.

Lemma toggle_play_pause_readback_escapes_witness :
  let self := state_after three_tracks (start_playlist "p") init in
  paused self = PBool false /\
  outcome_of (reading_back NotUtf8) toggle_play_pause self = Raised UnicodeDecodeError /\
  paused (state_after (reading_back NotUtf8) toggle_play_pause self) = PBool false.
Proof.
  intros self. split; [ reflexivity | ].
  assert (Hx : pause_exchange (reading_back NotUtf8) self NotUtf8).
  { exists 1%nat, "/tmp/mpv_music_player_4242.sock", 7%nat, (PDict []).
    repeat split; try reflexivity. discriminate. }
  destruct (@toggle_play_pause_readback_escapes (reading_back NotUtf8) self NotUtf8
              UnicodeDecodeError Hx (or_introl (conj eq_refl eq_refl)))
    as (Hout & Hst & _).
  split; [ exact Hout | ]. rewrite Hst. reflexivity.
Defined.

(* ===================================================================== *)
(** ** A missing player binary *)
(* ===================================================================== *)

(** Case analysis on every answer of a run in a given world. *)
Ltac explore :=
  repeat (unfold_m; simpl along;
          try match goal with
              | |- context [match ?x with _ => _ end] => destruct x eqn:?
              end).

(** Use what is known of the world's teardown answers. *)
Ltac contained Hc :=
  repeat match goal with
         | E : ?o ?k (Terminate ?p) = Some ?e |- _ =>
             let H := fresh "T" in
             destruct (Hc k) as (H & _); specialize (H p); rewrite E in H;
             simpl in H; clear E
         | E : ?o ?k (Wait ?p) = Some ?e |- _ =>
             let H := fresh "W" in
             destruct (Hc k) as (_ & H & _); specialize (H p); rewrite E in H;
             simpl in H; clear E
         | E : ?o ?k (Kill ?p) = Some ?e |- _ =>
             let H := fresh "K" in
             destruct (Hc k) as (_ & _ & H & _); rewrite (H p) in E; discriminate E
         | E : ?o ?k (Unlink ?f) = Some ?e |- _ =>
             let H := fresh "U" in
             destruct (Hc k) as (_ & _ & _ & H); specialize (H f); rewrite E in H;
             simpl in H; clear E
         end.

(** [stop_playback] in a world with a contained teardown returns
    normally, with both handles forgotten. *)
Lemma stop_playback_contained (o : oracle) (n : nat) (self : MusicPlayer) :
  teardown_contained o ->
  along o n (stop_playback self)
    (fun t r => fst r = Normal tt /\
                snd r = with_ipc_socket None (with_player_process None self) /\
                forallb (fun ev => match ev with Popen _ => false | _ => true end) t = true).
Proof.
  intros Hc. destruct self as [pl l i sh p f pa info].
  unfold stop_playback. explore.
  all: contained Hc.
  all: repeat match goal with e : exn |- _ => destruct e; try discriminate end.
  all: simpl; auto.
Qed.

Lemma py_index_in_range (l : list string) (i : Z) (self : MusicPlayer) :
  0 <= i < len l ->
  py_index l i self = Ret (Normal (nth (Z.to_nat i) l ""), self).
Proof.
  intros Hi. unfold py_index.
  destruct (Z.ltb_spec i 0); [ lia | ].
  destruct (Z.ltb_spec i 0); [ lia | ].
  destruct (Z.leb_spec (len l) i); [ lia | ]. reflexivity.
Qed.

Lemma guard_passes (l : list string) (i : Z) :
  l <> [] -> 0 <= i < len l -> (is_empty l || (len l <=? i))%bool = false.
Proof.
  intros Hne Hi. destruct l; [ congruence | ]. simpl is_empty.
  destruct (Z.leb_spec (len (s :: l)) i); [ lia | reflexivity ].
Qed.

Lemma play_current_song_without_player (o : oracle) (n : nat) (self : MusicPlayer) :
  teardown_contained o -> binary_missing o ->
  songs self <> [] -> 0 <= current_song_index self < len (songs self) ->
  along o n (play_current_song self) (spawn_failed self).
Proof.
  intros Hc Hm Hne Hi. destruct self as [pl l i sh p f pa info]. simpl in Hne, Hi.
  unfold play_current_song. unfold_m. rewrite (@guard_passes l i Hne Hi).
  apply along_pbind.
  eapply along_mono; [ | apply (@stop_playback_contained o n _ Hc) ].
  intros t [out s'] (Hout & Hs & Ht). simpl in Hout, Hs. subst out s'.
  unfold_m. rewrite (@py_index_in_range l i _ Hi).
  unfold_m. simpl along. rewrite (Hm _ _). unfold_m. simpl.
  unfold spawn_failed, same_session. simpl. repeat split.
  eexists. apply in_or_app. right. simpl. right. right. left. reflexivity.
Qed.

Lemma next_song_without_player (o : oracle) (self : MusicPlayer) :
  teardown_contained o -> binary_missing o ->
  songs self <> [] ->
  along o 0 (next_song self)
    (spawn_failed
       (with_current_song_index ((current_song_index self + 1) mod len (songs self)) self)).
Proof.
  intros Hc Hm Hne.
  assert (Hi := @mod_len_in_range (songs self) (current_song_index self + 1) Hne).
  destruct self as [pl l i sh p f pa info]. simpl in Hne, Hi |- *.
  unfold next_song. unfold_m.
  destruct l as [| a l]; [ congruence | ]. simpl is_empty. cbv iota.
  apply (@play_current_song_without_player o 0
           (mkPlayer pl (a :: l) ((i + 1) mod len (a :: l)) sh p f pa info) Hc Hm);
    simpl; [ discriminate | exact Hi ].
Qed.

(** C7.  When mpv is not installed, play_current_song on a session with
    the cursor on a track raises nothing: it leaves the label
    "Error: mpv not found" as the current song info, no process handle,
    and the session as it was.  A next_song after that still moves the
    cursor one further modulo the number of tracks, tries to spawn the
    player for the new track, and ends the same way, again without an
    exception. *)
Theorem spawn_failure_is_survived (o1 o2 : oracle) (self : MusicPlayer) :
  songs self <> [] ->
  0 <= current_song_index self < len (songs self) ->
  binary_missing o1 -> teardown_contained o1 ->
  binary_missing o2 -> teardown_contained o2 ->
  let s1 := state_after o1 play_current_song self in
  let s2 := state_after o2 next_song s1 in
  let next := (current_song_index self + 1) mod len (songs self) in
  (outcome_of o1 play_current_song self = Normal tt /\
   current_song_info s1 = "Error: mpv not found" /\
   player_process s1 = None /\
   songs s1 = songs self /\ current_song_index s1 = current_song_index self) /\
  (outcome_of o2 next_song s1 = Normal tt /\
   current_song_index s2 = next /\
   songs s2 = songs self /\
   (exists ipc, In (Popen (player_argv ipc (nth (Z.to_nat next) (songs self) "")))
                   (calls o2 (next_song s1))) /\
   current_song_info s2 = "Error: mpv not found" /\
   player_process s2 = None).
Proof.
  intros Hne Hi Hm1 Hc1 Hm2 Hc2 s1 s2 next.
  destruct (along_result play_current_song self o1
              (fun t out s' => spawn_failed self t (out, s'))) as (Ho1 & Hs1 & Hp1 & Hl1 & _).
  { eapply along_mono; [ | apply (@play_current_song_without_player o1 0 self Hc1 Hm1 Hne Hi) ].
    intros t [out s'] H. exact H. }
  simpl in Ho1, Hs1, Hp1, Hl1. fold s1 in Hs1, Hp1, Hl1.
  destruct Hs1 as (_ & Hsongs1 & Hidx1 & _).
  split; [ repeat split; assumption | ].
  assert (Hne1 : songs s1 <> []) by (rewrite Hsongs1; exact Hne).
  destruct (along_result next_song s1 o2
              (fun t out s' =>
                 spawn_failed
                   (with_current_song_index
                      ((current_song_index s1 + 1) mod len (songs s1)) s1) t (out, s')))
    as (Ho2 & Hs2 & Hp2 & Hl2 & ipc & Hin).
  { eapply along_mono; [ | apply (@next_song_without_player o2 s1 Hc2 Hm2 Hne1) ].
    intros t [out s'] H. exact H. }
  simpl in Ho2, Hs2, Hp2, Hl2, Hin. fold s2 in Hs2, Hp2, Hl2.
  destruct Hs2 as (_ & Hsongs2 & Hidx2 & _). simpl in Hsongs2, Hidx2.
  rewrite Hsongs1, Hidx1 in *. fold next in Hidx2, Hin.
  repeat split; try assumption.
  exists ipc. exact Hin.
Qed.

Lemma spawn_failure_is_survived_witness :
  let self := mkPlayer (Some "p") abc 2 false None None (PBool false) "" in
  let s1 := state_after no_player play_current_song self in
  let s2 := state_after no_player next_song s1 in
  current_song_info s1 = "Error: mpv not found" /\
  current_song_index s2 = 0 /\
  player_process s2 = None.
Proof.
  intros self s1 s2.
  assert (Hm : binary_missing no_player) by (intros n argv; reflexivity).
  assert (Hc : teardown_contained no_player)
    by (intros n; repeat split; intros; exact I).
  assert (Hne : songs self <> []) by (vm_compute; discriminate).
  assert (Hi : 0 <= current_song_index self < len (songs self))
    by (vm_compute; split; [ discriminate | reflexivity ]).
  destruct (@spawn_failure_is_survived no_player no_player self Hne Hi Hm Hc Hm Hc)
    as [(_ & Hl1 & _) (_ & Hi2 & _ & _ & _ & Hp2)].
  split; [ exact Hl1 | ]. split; [ exact Hi2 | exact Hp2 ].
Defined.

(* ===================================================================== *)
(** ** Doubles: the order used by min and max *)
(* ===================================================================== *)

(** [SFcompare] answers None when one side is NaN. *)
Lemma SFcompare_antisym (x y : float) :
  SFcompare y x = option_map CompOpp (SFcompare x y).
Proof.
  destruct x as [sx | sx | | sx mx ex], y as [sy | sy | | sy my ey]; simpl;
    try destruct sx; try destruct sy; try reflexivity.
  - rewrite (Z.compare_antisym ex ey).
    destruct (ex ?= ey); simpl; try reflexivity.
    rewrite (Pos.compare_cont_antisym mx my Eq). reflexivity.
  - rewrite (Z.compare_antisym ex ey).
    destruct (ex ?= ey); simpl; try reflexivity.
    rewrite (Pos.compare_cont_antisym mx my Eq). reflexivity.
Qed.

Lemma SFcompare_refl (x : float) : x <> S754_nan -> SFcompare x x = Some Eq.
Proof.
  destruct x as [s | s | | s m e]; intros H; try destruct s; simpl;
    try reflexivity; try congruence.
  - rewrite Z.compare_refl. fold (Pos.compare m m). now rewrite Pos.compare_refl.
  - rewrite Z.compare_refl. fold (Pos.compare m m). now rewrite Pos.compare_refl.
Qed.

Lemma float_of_Z_0 : float_of_Z 0 = S754_zero false.
Proof. reflexivity. Qed.

Lemma float_of_Z_100 : float_of_Z 100 = S754_finite false 7036874417766400 (-46).
Proof. vm_compute. reflexivity. Qed.

(** What [min(100, max(0, x))] is, by the two tests it makes. *)
Lemma clamp_by_tests (x : float) :
  py_min (PInt 100) (py_max (PInt 0) (PFloat x)) =
  if fltb (float_of_Z 0) x
  then if fltb x (float_of_Z 100) then PFloat x else PInt 100
  else PInt 0.
Proof.
  unfold py_min, py_max.
  change (py_lt (PInt 0) (PFloat x)) with (fltb (float_of_Z 0) x).
  destruct (fltb (float_of_Z 0) x); reflexivity.
Qed.

Lemma clamp_is_clamped (x : float) :
  clamped x (py_min (PInt 100) (py_max (PInt 0) (PFloat x))).
Proof.
  rewrite clamp_by_tests.
  assert (A0 := SFcompare_antisym (float_of_Z 0) x).
  assert (A100 := SFcompare_antisym x (float_of_Z 100)).
  assert (Hpos : SFcompare (float_of_Z 100) x = Some Lt ->
                 SFcompare (float_of_Z 0) x = Some Lt).
  { rewrite float_of_Z_0, float_of_Z_100.
    destruct x as [s | s | | s m e]; try destruct s; simpl; congruence. }
  assert (Hrefl : SFcompare (float_of_Z 0) x = Some Lt -> SFcompare x x = Some Eq).
  { intros H. apply SFcompare_refl. intros E. subst x.
    rewrite float_of_Z_0 in H. discriminate. }
  rewrite A100 in Hpos.
  unfold clamped, fltb, fleb, feqb, SFltb, SFleb, SFeqb.
  rewrite A0, A100.
  destruct (SFcompare (float_of_Z 0) x) as [[ | | ] | ] eqn:E0;
    destruct (SFcompare x (float_of_Z 100)) as [[ | | ] | ] eqn:E100;
    simpl option_map; cbv iota;
    unfold py_le, py_num_eq, as_float, fleb, feqb, SFleb, SFeqb;
    rewrite ?E0, ?E100, ?A100;
    try rewrite (Hrefl eq_refl);
    simpl;
    repeat split; intros; try reflexivity; try discriminate;
    try (specialize (Hpos eq_refl); discriminate).
Qed.

(* ===================================================================== *)
(** ** The progress query *)
(* ===================================================================== *)

Lemma extract_reading (str_to_float : string -> option float)
      (reply : list (string * pyval)) (self : MusicPlayer) :
  extract str_to_float (PDict reply) self = Ret (reading str_to_float reply, self).
Proof.
  unfold extract, reading. unfold_m.
  destruct (dict_get reply "data") as [v | ]; [ | reflexivity ].
  destruct (is_none v); simpl; [ reflexivity | ].
  destruct (float_of str_to_float v); reflexivity.
Qed.

(** The outcome of [get_progress] once both replies are in. *)
Lemma get_progress_exchange (str_to_float : string -> option float)
      (o : oracle) (self : MusicPlayer) (kp kd : list (string * pyval)) :
  progress_exchange o self (PDict kp) (PDict kd) ->
  outcome_of o (get_progress str_to_float) self =
    match reading str_to_float kp with
    | Raised e => if caught_by progress_catches e then Normal zeros else Raised e
    | Normal p =>
        match reading str_to_float kd with
        | Raised e => if caught_by progress_catches e then Normal zeros else Raised e
        | Normal d =>
            if py_lt (PInt 0) (PFloat d)
            then Normal (PFloat p, PFloat d, percentage_of p d)
            else Normal zeros
        end
    end.
Proof.
  intros (proc & f & sock & Hp & Hf & Hne & H0 & H1 & H2 & H3 & H4 & H5 & H6).
  destruct self as [pl l i sh p f' pa info]. simpl in Hp, Hf. subst p f'.
  apply nonempty_path in Hne.
  apply (along_result (get_progress str_to_float) _ o (fun _ out _ => out = _)).
  unfold get_progress, not_running, no_socket, query. follow.
  rewrite extract_reading.
  destruct (reading str_to_float kp) as [p | e]; unfold_m.
  - rewrite extract_reading.
    destruct (reading str_to_float kd) as [d | e]; unfold_m.
    + destruct (py_lt (PInt 0) (PFloat d)); unfold_m; cbn [along]; reflexivity.
    + destruct e; cbn [along]; reflexivity.
  - destruct e; cbn [along]; reflexivity.
Qed.

Lemma numeric_reading (str_to_float : string -> option float)
      (reply : list (string * pyval)) (f : float) :
  numeric str_to_float reply f -> reading str_to_float reply = Normal f.
Proof.
  intros (v & Hv & Hf). unfold reading. rewrite Hv.
  destruct v as [ | b | z | x | s | l | kvs]; simpl in Hf |- *; try discriminate.
  - congruence.
  - destruct (float_of_Z z); congruence.
  - congruence.
  - destruct (str_to_float s); congruence.
Qed.



(** C4.  When the player answers both queries with numbers and the
    duration is positive, get_progress returns the position, the duration,
    and (position / duration) * 100 clamped to [0, 100]: a value between 0
    and 100 that is 0 when the quotient is below 0, 100 when it is above
    100, and equal to it in between.  Position 50 of 200 gives exactly the
    double 25.0, position 250 of 200 gives exactly the integer 100. *)
Theorem percentage_is_clamped (str_to_float : string -> option float)
        (o : oracle) (self : MusicPlayer) (kp kd : list (string * pyval))
        (position duration : float) :
  progress_exchange o self (PDict kp) (PDict kd) ->
  numeric str_to_float kp position ->
  numeric str_to_float kd duration ->
  py_lt (PInt 0) (PFloat duration) = true ->
  exists pct : pyval,
    outcome_of o (get_progress str_to_float) self =
      Normal (PFloat position, PFloat duration, pct) /\
    clamped (fmul (fdiv position duration) (float_of_Z 100)) pct /\
    (position = float_of_Z 50 -> duration = float_of_Z 200 ->
     pct = PFloat (float_of_Z 25)) /\
    (position = float_of_Z 250 -> duration = float_of_Z 200 ->
     pct = PInt 100).
Proof.
  intros Hx Hp Hd Hpos.
  exists (percentage_of position duration).
  split; [ | split; [ | split ] ].
  - rewrite (get_progress_exchange str_to_float Hx).
    rewrite (numeric_reading Hp), (numeric_reading Hd), Hpos. reflexivity.
  - apply clamp_is_clamped.
  - intros -> ->. vm_compute. reflexivity.
  - intros -> ->. vm_compute. reflexivity.
Qed.

(** The player reports the position [pos] and the duration [dur]. *)
Lemma percentage_is_clamped_witness :
  let reports (pos dur : Z) : oracle :=
    fun n ev => match ev as e return answer e with
                | SockRecv _ =>
                    inr (Json (PDict
                      [("data", PFloat (float_of_Z (if Nat.eqb n 4 then pos else dur)));
                       ("error", PStr "success")]))
                | e => default_answer e
                end in
  let self := state_after three_tracks (start_playlist "p") init in
  outcome_of (reports 50 200) (get_progress (fun _ => None)) self =
    Normal (PFloat (float_of_Z 50), PFloat (float_of_Z 200), PFloat (float_of_Z 25)) /\
  outcome_of (reports 250 200) (get_progress (fun _ => None)) self =
    Normal (PFloat (float_of_Z 250), PFloat (float_of_Z 200), PInt 100).
Proof.
  intros reports self.
  assert (Hx : forall pos dur,
             progress_exchange (reports pos dur) self
               (PDict [("data", PFloat (float_of_Z pos)); ("error", PStr "success")])
               (PDict [("data", PFloat (float_of_Z dur)); ("error", PStr "success")])).
  { intros pos dur. exists 1%nat, "/tmp/mpv_music_player_4242.sock", 7%nat.
    repeat split; try reflexivity. discriminate. }
  assert (Hn : forall z, numeric (fun _ => None)
                 [("data", PFloat (float_of_Z z)); ("error", PStr "success")] (float_of_Z z)).
  { intros z. exists (PFloat (float_of_Z z)). split; reflexivity. }
  split.
  - destruct (@percentage_is_clamped (fun _ => None) (reports 50 200) self _ _ _ _
                (Hx 50 200) (Hn 50) (Hn 200) eq_refl) as (pct & Ho & _ & H25 & _).
    rewrite Ho, (H25 eq_refl eq_refl). reflexivity.
  - destruct (@percentage_is_clamped (fun _ => None) (reports 250 200) self _ _ _ _
                (Hx 250 200) (Hn 250) (Hn 200) eq_refl) as (pct & Ho & _ & _ & H100).
    rewrite Ho, (H100 eq_refl eq_refl). reflexivity.
Defined.





(* ===================================================================== *)
(** * Further properties of the playback methods *)
(* ===================================================================== *)

Lemma along_conj (R : Type) (p : prog R) (o : oracle) (n : nat)
      (P Q : list event -> R -> Prop) :
  along o n p P -> along o n p Q -> along o n p (fun t r => P t r /\ Q t r).
Proof.
  revert n P Q. induction p as [r | ev k IH]; simpl; intros n P Q HP HQ.
  - split; assumption.
  - exact (IH _ _ _ _ HP HQ).
Qed.

Lemma previous_song_state (o : oracle) (self : MusicPlayer) :
  songs self <> [] ->
  songs (state_after o previous_song self) = songs self /\
  current_song_index (state_after o previous_song self) =
    (current_song_index self - 1) mod len (songs self).
Proof.
  intros Hne.
  generalize (always_state_after previous_song self
                (fun s' => songs s' = songs self /\
                           current_song_index s' =
                           if is_empty (songs self) then current_song_index self
                           else (current_song_index self - 1) mod len (songs self))
                (previous_song_index self) o).
  destruct (songs self) eqn:E; [ congruence | ]. simpl is_empty. trivial.
Qed.

(** X1.  On the cursor, previous_song undoes next_song and next_song undoes
    previous_song, whatever the world does in between; from the first
    track previous_song goes to the last one, from the last track
    next_song goes to the first. *)
Theorem previous_song_undoes_next_song (self : MusicPlayer) (o1 o2 : oracle) :
  songs self <> [] ->
  0 <= current_song_index self < len (songs self) ->
  current_song_index (state_after o2 previous_song (state_after o1 next_song self))
    = current_song_index self /\
  current_song_index (state_after o2 next_song (state_after o1 previous_song self))
    = current_song_index self /\
  (current_song_index self = 0 ->
   current_song_index (state_after o1 previous_song self) = len (songs self) - 1) /\
  (current_song_index self = len (songs self) - 1 ->
   current_song_index (state_after o1 next_song self) = 0).
Proof.
  intros Hne Hi.
  destruct (@next_song_state o1 self Hne) as [Hl1 Hi1].
  destruct (@previous_song_state o1 self Hne) as [Hl1' Hi1'].
  assert (Hne1 : songs (state_after o1 next_song self) <> []) by (rewrite Hl1; exact Hne).
  assert (Hne1' : songs (state_after o1 previous_song self) <> [])
    by (rewrite Hl1'; exact Hne).
  destruct (@previous_song_state o2 _ Hne1) as [_ Hi2].
  destruct (@next_song_state o2 _ Hne1') as [_ Hi2'].
  rewrite Hi2, Hi2', Hi1, Hi1', Hl1, Hl1'.
  set (n := len (songs self)) in *. set (i := current_song_index self) in *.
  repeat split.
  - rewrite Zminus_mod_idemp_l. replace (i + 1 - 1) with i by lia.
    apply Z.mod_small, Hi.
  - rewrite Zplus_mod_idemp_l. replace (i - 1 + 1) with i by lia.
    apply Z.mod_small, Hi.
  - intros E. rewrite E. replace (0 - 1) with (-1 * 1 + (1 - 1)) by lia.
    replace (-1 * 1 + (1 - 1)) with (n - 1 + -1 * n) by lia.
    rewrite Z.mod_add by lia. apply Z.mod_small. lia.
  - intros E. rewrite E. replace (n - 1 + 1) with (0 + 1 * n) by lia.
    rewrite Z.mod_add by lia. apply Z.mod_small. lia.
Qed.

Lemma previous_song_undoes_next_song_witness :
  let self := state_after three_tracks (start_playlist "p") init in
  current_song_index (state_after quiet previous_song self) = 2 /\
  current_song_index (state_after no_player previous_song
                        (state_after three_tracks next_song self)) = 0.
Proof.
  intros self.
  assert (Hne : songs self <> []) by (vm_compute; discriminate).
  assert (Hi : 0 <= current_song_index self < len (songs self))
    by (vm_compute; split; [ discriminate | reflexivity ]).
  destruct (@previous_song_undoes_next_song self three_tracks no_player Hne Hi)
    as (H1 & _ & _ & _).
  destruct (@previous_song_undoes_next_song self quiet quiet Hne Hi)
    as (_ & _ & H0 & _).
  split; [ exact (H0 eq_refl) | exact H1 ].
Defined.

(** X2.  With nothing to play the transport methods do nothing at all:
    play_current_song on an empty list, or with the cursor at or past the
    end of the list, and next_song and previous_song on an empty list,
    make no call, change no field and raise nothing. *)
Theorem nothing_to_play (o : oracle) (self : MusicPlayer) :
  (songs self = [] \/ len (songs self) <= current_song_index self ->
   calls o (play_current_song self) = [] /\
   outcome_of o play_current_song self = Normal tt /\
   state_after o play_current_song self = self) /\
  (songs self = [] ->
   calls o (next_song self) = [] /\
   outcome_of o next_song self = Normal tt /\
   state_after o next_song self = self) /\
  (songs self = [] ->
   calls o (previous_song self) = [] /\
   outcome_of o previous_song self = Normal tt /\
   state_after o previous_song self = self).
Proof.
  destruct self as [pl l i sh p f pa info]. simpl.
  split; [ | split ].
  - intros H.
    apply (along_result play_current_song _ o
             (fun t out s' => t = [] /\ out = Normal tt /\ s' = _)).
    unfold play_current_song. unfold_m.
    assert (E : (is_empty l || (len l <=? i))%bool = true).
    { destruct H as [-> | H]; [ reflexivity | ].
      apply orb_true_iff. right. apply Z.leb_le, H. }
    rewrite E. simpl. auto.
  - intros ->.
    apply (along_result next_song _ o
             (fun t out s' => t = [] /\ out = Normal tt /\ s' = _)).
    simpl. auto.
  - intros ->.
    apply (along_result previous_song _ o
             (fun t out s' => t = [] /\ out = Normal tt /\ s' = _)).
    simpl. auto.
Qed.

Lemma nothing_to_play_witness :
  let self := mkPlayer (Some "p") abc 3 false (Some 1%nat) None (PBool true) "c.mp3" in
  calls quiet (play_current_song self) = [] /\
  state_after quiet play_current_song self = self.
Proof.
  intros self.
  destruct (proj1 (@nothing_to_play quiet self)) as (Hc & _ & Hs).
  - right. vm_compute. discriminate.
  - split; [ exact Hc | exact Hs ].
Defined.

(** X3.  stop_playback forgets both the process handle and the socket path
    and leaves every other field alone, provided the teardown raises only
    what the method handles; a second stop_playback right after makes no
    call and changes nothing. *)
Theorem stop_playback_twice (o1 o2 : oracle) (self : MusicPlayer) :
  teardown_contained o1 ->
  let s1 := state_after o1 stop_playback self in
  outcome_of o1 stop_playback self = Normal tt /\
  s1 = with_ipc_socket None (with_player_process None self) /\
  calls o2 (stop_playback s1) = [] /\
  outcome_of o2 stop_playback s1 = Normal tt /\
  state_after o2 stop_playback s1 = s1.
Proof.
  intros Hc s1.
  destruct (along_result stop_playback self o1
              (fun _ out s' => out = Normal tt /\
                               s' = with_ipc_socket None (with_player_process None self)))
    as [Ho Hs].
  { eapply along_mono; [ | apply (@stop_playback_contained o1 0 self Hc) ].
    intros t r (H1 & H2 & _). split; assumption. }
  fold s1 in Hs. split; [ exact Ho | ]. split; [ exact Hs | ].
  rewrite Hs.
  apply (along_result stop_playback _ o2
           (fun t out s' => t = [] /\ out = Normal tt /\ s' = _)).
  destruct self as [pl l i sh p f pa info]. simpl. auto.
Qed.

Lemma stop_playback_twice_witness :
  let self := state_after three_tracks (start_playlist "p") init in
  let s1 := state_after quiet stop_playback self in
  player_process self = Some 1%nat /\
  player_process s1 = None /\ ipc_socket s1 = None /\
  calls quiet (stop_playback s1) = [].
Proof.
  intros self s1.
  assert (Hc : teardown_contained quiet) by (intros n; repeat split; intros; exact I).
  destruct (@stop_playback_twice quiet quiet self Hc) as (_ & Hs & Hcalls & _).
  fold s1 in Hs, Hcalls.
  split; [ reflexivity | ].
  split; [ rewrite Hs; reflexivity | ].
  split; [ rewrite Hs; reflexivity | exact Hcalls ].
Defined.

(** X4.  stop_playback asks the player to terminate and waits; it kills
    the process exactly when that wait times out.  If the wait returns,
    or if the process is already gone (ProcessLookupError), no kill is
    sent.  In each of these cases the handle is forgotten. *)
Theorem stop_playback_escalation (o : oracle) (self : MusicPlayer) (proc : process) :
  player_process self = Some proc ->
  o 0%nat (Terminate proc) = None ->
  (o 1%nat (Wait proc) = Some TimeoutExpired -> o 2%nat (Kill proc) = None ->
   firstn 3 (calls o (stop_playback self)) = [Terminate proc; Wait proc; Kill proc] /\
   player_process (state_after o stop_playback self) = None) /\
  (o 1%nat (Wait proc) = None ->
   firstn 2 (calls o (stop_playback self)) = [Terminate proc; Wait proc] /\
   (forall q, ~ In (Kill q) (calls o (stop_playback self))) /\
   player_process (state_after o stop_playback self) = None) /\
  (o 1%nat (Wait proc) = Some ProcessLookupError ->
   firstn 2 (calls o (stop_playback self)) = [Terminate proc; Wait proc] /\
   (forall q, ~ In (Kill q) (calls o (stop_playback self))) /\
   player_process (state_after o stop_playback self) = None).
Proof.
  intros Hp H0. destruct self as [pl l i sh p f pa info]. simpl in Hp. subst p.
  split; [ | split ].
  - intros H1 H2.
    apply (along_result stop_playback _ o
             (fun t _ s' => firstn 3 t = [Terminate proc; Wait proc; Kill proc] /\
                            player_process s' = None)).
    unfold stop_playback. follow. explore; simpl; auto.
  - intros H1.
    apply (along_result stop_playback _ o
             (fun t _ s' => firstn 2 t = [Terminate proc; Wait proc] /\
                            (forall q, ~ In (Kill q) t) /\ player_process s' = None)).
    unfold stop_playback. follow. explore; simpl; repeat split; auto;
      intros q Hq; repeat (destruct Hq as [Hq | Hq]; [ discriminate | ]); exact Hq.
  - intros H1.
    apply (along_result stop_playback _ o
             (fun t _ s' => firstn 2 t = [Terminate proc; Wait proc] /\
                            (forall q, ~ In (Kill q) t) /\ player_process s' = None)).
    unfold stop_playback. follow. explore; simpl; repeat split; auto;
      intros q Hq; repeat (destruct Hq as [Hq | Hq]; [ discriminate | ]); exact Hq.
Qed.

Lemma stop_playback_escalation_witness :
  let stubborn : oracle :=
    fun _ ev => match ev as e return answer e with
                | Wait _ => Some TimeoutExpired
                | e => default_answer e
                end in
  let self := state_after three_tracks (start_playlist "p") init in
  firstn 3 (calls stubborn (stop_playback self)) =
    [Terminate 1%nat; Wait 1%nat; Kill 1%nat] /\
  player_process (state_after stubborn stop_playback self) = None.
Proof.
  intros stubborn self.
  exact (proj1 (@stop_playback_escalation stubborn self 1%nat eq_refl eq_refl)
               eq_refl eq_refl).
Defined.

Lemma along_trivial (R : Type) (p : prog R) (o : oracle) (n : nat)
      (Q : list event -> R -> Prop) :
  (forall t r, Q t r) -> along o n p Q.
Proof.
  revert n Q. induction p as [r | ev k IH]; simpl; intros n Q H.
  - apply H.
  - apply IH. intros t r. apply H.
Qed.

Lemma stop_playback_first_call (o : oracle) (n : nat) (self : MusicPlayer) (p : process) :
  player_process self = Some p ->
  along o n (stop_playback self) (fun t _ => exists rest, t = Terminate p :: rest).
Proof.
  intros Hp. destruct self as [pl l i sh p' f pa info]. simpl in Hp. subst p'.
  unfold stop_playback. unfold_m. cbn [along].
  apply along_trivial. intros t r. eauto.
Qed.

Lemma stop_playback_spawns_nothing (o : oracle) (n : nat) (self : MusicPlayer) :
  along o n (stop_playback self) (fun t _ => forall argv, ~ In (Popen argv) t).
Proof.
  unfold stop_playback.
  explore; intros argv Hin; simpl in Hin;
    repeat match goal with
           | H : _ \/ _ |- _ => destruct H as [H | H]; try discriminate H
           end; exact Hin.
Qed.

(** X5.  When mpv starts, play_current_song leaves the object playing the
    track under the cursor: the handle is the new process, the paused flag
    is False, the label is what get_song_info returned for that track, and
    the session is as before.  The socket path kept in the object is the
    one computed for this program, and the one command the method spawns
    is mpv --no-terminal --no-video --input-ipc-server=<that path>
    <the track>.  If a player was running, the first call of the method is
    the request to terminate it, and the spawn comes after. *)
Theorem play_current_song_starts_player (o : oracle) (self : MusicPlayer) (proc : process) :
  songs self <> [] ->
  0 <= current_song_index self < len (songs self) ->
  teardown_contained o -> spawn_yields o proc ->
  let s1 := state_after o play_current_song self in
  outcome_of o play_current_song self = Normal tt /\
  player_process s1 = Some proc /\
  paused s1 = PBool false /\
  same_session self s1 /\
  (exists k, current_song_info s1 = o k (GetSongInfo (current_track self))) /\
  (exists k ipc before,
      ipc = o k IpcSocketPath /\
      ipc_socket s1 = Some ipc /\
      calls o (play_current_song self) =
        (before ++
         [GetSongInfo (current_track self); IpcSocketPath;
          Popen ["mpv"; "--no-terminal"; "--no-video";
                 String.append "--input-ipc-server=" ipc; current_track self];
          Sleep])%list /\
      (forall argv, ~ In (Popen argv) before) /\
      (forall old, player_process self = Some old ->
                   exists rest, before = Terminate old :: rest)).
Proof.
  intros Hne Hi Hc Hs s1.
  apply (along_result play_current_song self o
           (fun t out s' =>
              out = Normal tt /\ player_process s' = Some proc /\
              paused s' = PBool false /\ same_session self s' /\
              (exists k, current_song_info s' = o k (GetSongInfo (current_track self))) /\
              (exists k ipc before,
                  ipc = o k IpcSocketPath /\
                  ipc_socket s' = Some ipc /\
                  t = (before ++
                       [GetSongInfo (current_track self); IpcSocketPath;
                        Popen ["mpv"; "--no-terminal"; "--no-video";
                               String.append "--input-ipc-server=" ipc;
                               current_track self];
                        Sleep])%list /\
                  (forall argv, ~ In (Popen argv) before) /\
                  (forall old, player_process self = Some old ->
                               exists rest, before = Terminate old :: rest)))).
  destruct self as [pl l i sh p f pa info]. simpl in Hne, Hi.
  unfold current_track. simpl songs. simpl current_song_index. simpl player_process.
  unfold play_current_song. unfold_m. rewrite (@guard_passes l i Hne Hi).
  apply along_pbind.
  assert (A := @stop_playback_contained o 0 (mkPlayer pl l i sh p f pa info) Hc).
  assert (B : along o 0 (stop_playback (mkPlayer pl l i sh p f pa info))
                (fun t _ => forall old, p = Some old ->
                                        exists rest, t = Terminate old :: rest)).
  { destruct p as [old | ].
    - eapply along_mono;
        [ | apply (@stop_playback_first_call o 0 (mkPlayer pl l i sh (Some old) f pa info)
                     old eq_refl) ].
      intros t r H old' E. inversion E. subst old'. exact H.
    - apply along_trivial. intros t r old E. discriminate. }
  assert (C := @stop_playback_spawns_nothing o 0 (mkPlayer pl l i sh p f pa info)).
  eapply along_mono; [ | exact (@along_conj _ _ _ _ _ _ (@along_conj _ _ _ _ _ _ A B) C) ].
  intros t [out s'] [[(Hout & Hst & Ht) Hfirst] Hnone]. simpl in Hout, Hst. subst out s'.
  unfold_m. rewrite (@py_index_in_range l i _ Hi).
  unfold_m. cbn [along]. rewrite (Hs _ _). unfold_m. cbn [along].
  destruct (o (S (S (S (0 + List.length t)))) Sleep).
  unfold same_session. simpl. repeat split.
  - eexists. reflexivity.
  - exists (S (0 + List.length t)), (o (S (0 + List.length t)) IpcSocketPath), t.
    repeat split; [ exact Hnone | exact Hfirst ].
Qed.

Lemma play_current_song_starts_player_witness :
  let self := state_after three_tracks (start_playlist "p") init in
  let replacing : oracle :=
    fun _ ev => match ev as e return answer e with
                | Popen _ => inr 2%nat
                | e => default_answer e
                end in
  player_process self = Some 1%nat /\
  player_process (state_after replacing play_current_song self) = Some 2%nat /\
  hd Sleep (calls replacing (play_current_song self)) = Terminate 1%nat /\
  In (Popen ["mpv"; "--no-terminal"; "--no-video";
             "--input-ipc-server=/tmp/mpv_music_player_4242.sock"; "a.mp3"])
     (calls replacing (play_current_song self)).
Proof.
  intros self replacing.
  assert (Hne : songs self <> []) by (vm_compute; discriminate).
  assert (Hi : 0 <= current_song_index self < len (songs self))
    by (vm_compute; split; [ discriminate | reflexivity ]).
  assert (Hc : teardown_contained replacing)
    by (intros n; repeat split; intros; exact I).
  assert (Hs : spawn_yields replacing 2%nat) by (intros n argv; reflexivity).
  destruct (@play_current_song_starts_player replacing self 2%nat Hne Hi Hc Hs)
    as (_ & Hp & _ & _ & _ & (k & ipc & before & Hipc & _ & Hcalls & _ & Hold)).
  destruct (Hold 1%nat eq_refl) as (rest & Hrest).
  split; [ reflexivity | ]. split; [ exact Hp | ]. split.
  - rewrite Hcalls, Hrest. reflexivity.
  - rewrite Hcalls. apply in_or_app. right. right. right. left.
    rewrite Hipc. reflexivity.
Defined.

(** X6.  check_player_status: without a handle it makes no call; with a
    running player it only polls; in both cases nothing changes.  When the
    poll reports that the player has exited and tracks are loaded, the
    cursor moves on by one, modulo the number of tracks: the next track is
    played automatically, whatever the exit code was. *)
Theorem check_player_status_advances (o : oracle) (self : MusicPlayer) :
  (player_process self = None ->
   calls o (check_player_status self) = [] /\
   state_after o check_player_status self = self) /\
  (forall proc, player_process self = Some proc -> o 0%nat (Poll proc) = None ->
   calls o (check_player_status self) = [Poll proc] /\
   state_after o check_player_status self = self) /\
  (forall proc code, player_process self = Some proc ->
   o 0%nat (Poll proc) = Some code -> songs self <> [] ->
   songs (state_after o check_player_status self) = songs self /\
   current_song_index (state_after o check_player_status self) =
     (current_song_index self + 1) mod len (songs self)).
Proof.
  destruct self as [pl l i sh p f pa info]. simpl.
  split; [ | split ].
  - intros ->.
    apply (along_result check_player_status _ o (fun t _ s' => t = [] /\ s' = _)).
    simpl. auto.
  - intros proc -> H0.
    apply (along_result check_player_status _ o
             (fun t _ s' => t = [Poll proc] /\ s' = _)).
    unfold check_player_status. follow. auto.
  - intros proc code -> H0 Hne.
    apply (along_result check_player_status _ o
             (fun _ _ s' => songs s' = l /\ current_song_index s' = (i + 1) mod len l)).
    unfold check_player_status. follow.
    apply always_along. eapply always_mono; [ | apply next_song_index ].
    intros r [H1 H2]. simpl in H1, H2.
    destruct l; [ congruence | ]. auto.
Qed.

Lemma check_player_status_advances_witness :
  let finished : oracle :=
    fun n ev => match ev as e return answer e with
                | Poll _ => Some 0
                | ParseM3u8 _ => abc
                | e => default_answer e
                end in
  let self := mkPlayer (Some "p") abc 2 false (Some 1%nat) None (PBool false) "c.mp3" in
  current_song_index (state_after finished check_player_status self) = 0.
Proof.
  intros finished self.
  destruct (@check_player_status_advances finished self) as (_ & _ & H).
  destruct (H 1%nat 0 eq_refl eq_refl) as [_ Hi].
  - vm_compute. discriminate.
  - exact Hi.
Defined.

(* ===================================================================== *)
(** ** Pausing by signal *)
(* ===================================================================== *)

Lemma signal_pause_delivered (o : oracle) (n : nat) (self : MusicPlayer) (proc : process) :
  player_process self = Some proc -> signals_delivered o ->
  along o n (signal_pause self)
    (fun t r => t = [SendSignal proc (toggling_signal (paused self))] /\
                r = (Normal tt, with_paused (PBool (negb (truthy (paused self)))) self)).
Proof.
  intros Hp Hd. destruct self as [pl l i sh p f pa info]. simpl in Hp. subst p.
  unfold signal_pause, toggling_signal. unfold_m. simpl paused.
  destruct (truthy pa); unfold_m; cbn [along]; rewrite (Hd _ _ _); unfold_m;
    cbn [along]; auto.
Qed.

Lemma signal_pause_failed (o : oracle) (n : nat) (self : MusicPlayer) (proc : process)
      (e : exn) :
  player_process self = Some proc ->
  caught_by [ProcessLookupError; OSError] e = true ->
  (forall k p sig, o k (SendSignal p sig) = Some e) ->
  along o n (signal_pause self)
    (fun t r => t = [SendSignal proc (toggling_signal (paused self))] /\
                r = (Normal tt, with_paused (PBool false) (with_player_process None self))).
Proof.
  intros Hp He Hf. destruct self as [pl l i sh p f pa info]. simpl in Hp. subst p.
  unfold signal_pause, toggling_signal. unfold_m. simpl paused.
  destruct (truthy pa); unfold_m; cbn [along]; rewrite (Hf _ _ _); unfold_m;
    rewrite He; cbn [along]; auto.
Qed.

(** How [toggle_play_pause] reaches the signal branch without touching the
    channel: the player runs and there is no socket file to talk to. *)
Lemma toggle_play_pause_falls_back (o : oracle) (self : MusicPlayer) (proc : process)
      (Q : list event -> outcome unit * MusicPlayer -> Prop) :
  running o self proc -> endpoint_absent o self ->
  (forall n looked,
      forallb (fun ev => negb (on_channel ev) && negb (on_process ev)) looked = true ->
      along o n (signal_pause self) (fun t r => Q (looked ++ t)%list r)) ->
  along o 0 (toggle_play_pause self) Q.
Proof.
  intros [Hp H0] Ha HQ. destruct self as [pl l i sh p f pa info].
  simpl in Hp. subst p. unfold endpoint_absent in Ha. simpl in Ha.
  unfold toggle_play_pause, not_running, no_socket. follow.
  destruct f as [path | ].
  - destruct (truthy (PStr path)); follow.
    + exact (HQ 2%nat [Poll proc; PathExists path] eq_refl).
    + exact (HQ 1%nat [Poll proc] eq_refl).
  - follow. exact (HQ 1%nat [Poll proc] eq_refl).
Qed.

(** What one toggle by signal does. *)
Lemma signal_toggle_run (o : oracle) (self : MusicPlayer) (proc : process) :
  running o self proc -> endpoint_absent o self -> signals_delivered o ->
  outcome_of o toggle_play_pause self = Normal tt /\
  state_after o toggle_play_pause self =
    with_paused (PBool (negb (truthy (paused self)))) self /\
  filter on_process (calls o (toggle_play_pause self)) =
    [SendSignal proc (if truthy (paused self) then SIGCONT else SIGSTOP)] /\
  forallb (fun ev => negb (on_channel ev)) (calls o (toggle_play_pause self)) = true.
Proof.
  intros Hr Ha Hd.
  apply (along_result toggle_play_pause self o
           (fun t out s' =>
              out = Normal tt /\
              s' = with_paused (PBool (negb (truthy (paused self)))) self /\
              filter on_process t =
                [SendSignal proc (if truthy (paused self) then SIGCONT else SIGSTOP)] /\
              forallb (fun ev => negb (on_channel ev)) t = true)).
  apply (toggle_play_pause_falls_back _ Hr Ha). intros n looked Hl.
  eapply along_mono; [ | apply (@signal_pause_delivered o n self proc (proj1 Hr) Hd) ].
  intros t r [-> ->]. simpl fst. simpl snd. repeat split.
  - rewrite filter_app. simpl.
    assert (E : filter on_process looked = []).
    { clear -Hl. induction looked as [| ev rest IH]; [ reflexivity | ].
      simpl in Hl |- *. apply andb_true_iff in Hl. destruct Hl as [H1 H2].
      apply andb_true_iff in H1. destruct H1 as [_ H1].
      apply negb_true_iff in H1. rewrite H1. apply IH, H2. }
    rewrite E. reflexivity.
  - rewrite forallb_app. simpl. rewrite andb_true_r.
    clear -Hl. induction looked as [| ev rest IH]; [ reflexivity | ].
    simpl in Hl |- *. apply andb_true_iff in Hl. destruct Hl as [H1 H2].
    apply andb_true_iff in H1. destruct H1 as [H1 _]. rewrite H1. apply IH, H2.
Qed.

(** X7.  With the player running and no socket file to talk to,
    toggle_play_pause pauses by signal: it sends exactly one signal to the
    process, SIGSTOP when the flag says playing and SIGCONT when it says
    paused, makes no call on the channel, and, the signal delivered, flips
    the flag and leaves every other field alone. *)
Theorem toggle_play_pause_by_signal (o : oracle) (self : MusicPlayer) (proc : process) :
  running o self proc -> endpoint_absent o self -> signals_delivered o ->
  outcome_of o toggle_play_pause self = Normal tt /\
  state_after o toggle_play_pause self =
    with_paused (PBool (negb (truthy (paused self)))) self /\
  filter on_process (calls o (toggle_play_pause self)) =
    [SendSignal proc (if truthy (paused self) then SIGCONT else SIGSTOP)] /\
  forallb (fun ev => negb (on_channel ev)) (calls o (toggle_play_pause self)) = true.
Proof.
  intros Hr Ha Hd.
  apply (along_result toggle_play_pause self o
           (fun t out s' =>
              out = Normal tt /\
              s' = with_paused (PBool (negb (truthy (paused self)))) self /\
              filter on_process t =
                [SendSignal proc (if truthy (paused self) then SIGCONT else SIGSTOP)] /\
              forallb (fun ev => negb (on_channel ev)) t = true)).
  apply (toggle_play_pause_falls_back _ Hr Ha). intros n looked Hl.
  eapply along_mono; [ | apply (@signal_pause_delivered o n self proc (proj1 Hr) Hd) ].
  intros t r [-> ->]. simpl fst. simpl snd. repeat split.
  - rewrite filter_app. simpl.
    assert (E : filter on_process looked = []).
    { clear -Hl. induction looked as [| ev rest IH]; [ reflexivity | ].
      simpl in Hl |- *. apply andb_true_iff in Hl. destruct Hl as [H1 H2].
      apply andb_true_iff in H1. destruct H1 as [_ H1].
      apply negb_true_iff in H1. rewrite H1. apply IH, H2. }
    rewrite E. reflexivity.
  - rewrite forallb_app. simpl. rewrite andb_true_r.
    clear -Hl. induction looked as [| ev rest IH]; [ reflexivity | ].
    simpl in Hl |- *. apply andb_true_iff in Hl. destruct Hl as [H1 H2].
    apply andb_true_iff in H1. destruct H1 as [H1 _]. rewrite H1. apply IH, H2.
Qed.


Lemma toggle_play_pause_by_signal_witness :
  let no_file : oracle :=
    fun _ ev => match ev as e return answer e with
                | PathExists _ => false
                | e => default_answer e
                end in
  let self := state_after three_tracks (start_playlist "p") init in
  paused (state_after no_file toggle_play_pause self) = PBool true /\
  calls no_file (toggle_play_pause self) =
    [Poll 1%nat; PathExists "/tmp/mpv_music_player_4242.sock"; SendSignal 1%nat SIGSTOP].
Proof.
  intros no_file self.
  assert (Hr : running no_file self 1%nat) by (split; reflexivity).
  assert (Ha : endpoint_absent no_file self) by reflexivity.
  assert (Hd : signals_delivered no_file) by (intros n p sig; reflexivity).
  destruct (@toggle_play_pause_by_signal no_file self 1%nat Hr Ha Hd) as (_ & Hs & _).
  split; [ rewrite Hs; reflexivity | reflexivity ].
Defined.

(** X8.  When the socket file is there but the connection is refused — or
    fails with any other OSError — toggle_play_pause falls back to the
    signal for this call: after the failed connect it sends the one signal
    and flips the flag, and raises nothing. *)
Theorem toggle_play_pause_connection_refused
        (o : oracle) (self : MusicPlayer) (proc : process) (f : string) (e : exn) :
  running o self proc ->
  ipc_socket self = Some f -> f <> "" ->
  o 1%nat (PathExists f) = true ->
  o 2%nat (SockConnect f false) = inl e -> isinstance e OSError = true ->
  signals_delivered o ->
  outcome_of o toggle_play_pause self = Normal tt /\
  state_after o toggle_play_pause self =
    with_paused (PBool (negb (truthy (paused self)))) self /\
  calls o (toggle_play_pause self) =
    [Poll proc; PathExists f; SockConnect f false;
     SendSignal proc (if truthy (paused self) then SIGCONT else SIGSTOP)].
Proof.
  intros [Hp H0] Hf Hne H1 H2 He Hd.
  apply (along_result toggle_play_pause self o
           (fun t out s' =>
              out = Normal tt /\
              s' = with_paused (PBool (negb (truthy (paused self)))) self /\
              t = [Poll proc; PathExists f; SockConnect f false;
                   SendSignal proc (if truthy (paused self) then SIGCONT else SIGSTOP)])).
  destruct self as [pl l i sh p f' pa info]. simpl in Hp, Hf. subst p f'.
  apply nonempty_path in Hne.
  unfold toggle_play_pause, not_running, no_socket.
  destruct e; try discriminate He; follow;
    (eapply along_mono;
     [ | apply (@signal_pause_delivered o 3 (mkPlayer pl l i sh (Some proc) (Some f) pa info)
                  proc eq_refl Hd) ]);
    intros t r [-> ->]; simpl; auto.
Qed.

Lemma toggle_play_pause_connection_refused_witness :
  let refusing : oracle :=
    fun _ ev => match ev as e return answer e with
                | SockConnect _ _ => inl ConnectionRefusedError
                | e => default_answer e
                end in
  let self := with_paused (PBool true)
                (state_after three_tracks (start_playlist "p") init) in
  paused (state_after refusing toggle_play_pause self) = PBool false /\
  last (calls refusing (toggle_play_pause self)) Sleep = SendSignal 1%nat SIGCONT.
Proof.
  intros refusing self.
  assert (Hr : running refusing self 1%nat) by (split; reflexivity).
  assert (Hd : signals_delivered refusing) by (intros n p sig; reflexivity).
  assert (Hne : "/tmp/mpv_music_player_4242.sock" <> "") by discriminate.
  destruct (@toggle_play_pause_connection_refused refusing self 1%nat _ _
              Hr eq_refl Hne eq_refl eq_refl eq_refl Hd) as (_ & Hs & Hc).
  split; [ rewrite Hs; reflexivity | rewrite Hc; reflexivity ].
Defined.

(** X9.  Pausing by signal is its own inverse on the flag: two
    toggle_play_pause calls in a row that both go by signal leave the
    paused flag with the truth value it had, and a flag that was True or
    False exactly as it was. *)
Theorem signal_pause_twice_restores_flag
        (o1 o2 : oracle) (self : MusicPlayer) (proc : process) :
  running o1 self proc -> endpoint_absent o1 self -> signals_delivered o1 ->
  running o2 self proc -> endpoint_absent o2 self -> signals_delivered o2 ->
  let s2 := state_after o2 toggle_play_pause (state_after o1 toggle_play_pause self) in
  s2 = with_paused (PBool (truthy (paused self))) self /\
  (forall b, paused self = PBool b -> s2 = self).
Proof.
  intros Hr1 Ha1 Hd1 Hr2 Ha2 Hd2 s2.
  destruct (signal_toggle_run Hr1 Ha1 Hd1) as (_ & Hs1 & _).
  set (s1 := state_after o1 toggle_play_pause self) in *.
  assert (Hr2' : running o2 s1 proc) by (rewrite Hs1; exact Hr2).
  assert (Ha2' : endpoint_absent o2 s1) by (rewrite Hs1; exact Ha2).
  destruct (signal_toggle_run Hr2' Ha2' Hd2) as (_ & Hs2 & _).
  fold s2 in Hs2.
  assert (E : s2 = with_paused (PBool (truthy (paused self))) self).
  { rewrite Hs2, Hs1. destruct self as [pl l i sh p f pa info]. simpl.
    now rewrite negb_involutive. }
  split; [ exact E | ].
  intros b Hb. rewrite E. destruct self as [pl l i sh p f pa info].
  simpl in Hb. subst pa. reflexivity.
Qed.

Lemma signal_pause_twice_restores_flag_witness :
  let no_file : oracle :=
    fun _ ev => match ev as e return answer e with
                | PathExists _ => false
                | e => default_answer e
                end in
  let self := state_after three_tracks (start_playlist "p") init in
  state_after no_file toggle_play_pause (state_after no_file toggle_play_pause self) = self.
Proof.
  intros no_file self.
  assert (Hr : running no_file self 1%nat) by (split; reflexivity).
  assert (Ha : endpoint_absent no_file self) by reflexivity.
  assert (Hd : signals_delivered no_file) by (intros n p sig; reflexivity).
  exact (proj2 (@signal_pause_twice_restores_flag no_file no_file self 1%nat
                  Hr Ha Hd Hr Ha Hd) false eq_refl).
Defined.

(** X10.  When the signal cannot be delivered because the process is gone
    (ProcessLookupError, or any OSError), toggle_play_pause raises
    nothing: it forgets the process handle and sets the paused flag to
    False. *)
Theorem toggle_play_pause_process_gone
        (o : oracle) (self : MusicPlayer) (proc : process) (e : exn) :
  running o self proc -> endpoint_absent o self ->
  isinstance e OSError = true ->
  (forall k p sig, o k (SendSignal p sig) = Some e) ->
  outcome_of o toggle_play_pause self = Normal tt /\
  state_after o toggle_play_pause self =
    with_paused (PBool false) (with_player_process None self).
Proof.
  intros Hr Ha He Hf.
  apply (along_result toggle_play_pause self o
           (fun _ out s' =>
              out = Normal tt /\
              s' = with_paused (PBool false) (with_player_process None self))).
  apply (toggle_play_pause_falls_back _ Hr Ha). intros n looked _.
  assert (Hcaught : caught_by [ProcessLookupError; OSError] e = true).
  { unfold caught_by. simpl. rewrite He. now rewrite !orb_true_r. }
  eapply along_mono;
    [ | apply (@signal_pause_failed o n self proc e (proj1 Hr) Hcaught Hf) ].
  intros t r [_ ->]. simpl. auto.
Qed.

Lemma toggle_play_pause_process_gone_witness :
  let vanished : oracle :=
    fun _ ev => match ev as e return answer e with
                | PathExists _ => false
                | SendSignal _ _ => Some ProcessLookupError
                | e => default_answer e
                end in
  let self := state_after three_tracks (start_playlist "p") init in
  player_process (state_after vanished toggle_play_pause self) = None /\
  paused (state_after vanished toggle_play_pause self) = PBool false.
Proof.
  intros vanished self.
  assert (Hr : running vanished self 1%nat) by (split; reflexivity).
  assert (Ha : endpoint_absent vanished self) by reflexivity.
  destruct (@toggle_play_pause_process_gone vanished self 1%nat ProcessLookupError
              Hr Ha eq_refl (fun _ _ _ => eq_refl)) as (_ & Hs).
  rewrite Hs. split; reflexivity.
Defined.

(* ===================================================================== *)
(** ** More on the progress query, shuffle and playlist start *)
(* ===================================================================== *)

(** X11.  get_progress only reads: in every world, whether it returns or
    raises, it leaves every field of the object as it was, and it makes no
    call that starts, signals or ends a process. *)
Theorem get_progress_only_reads (str_to_float : string -> option float)
        (o : oracle) (self : MusicPlayer) :
  state_after o (get_progress str_to_float) self = self /\
  forallb (fun ev => negb (on_process ev)) (calls o (get_progress str_to_float self)) = true.
Proof.
  apply (along_result (get_progress str_to_float) self o
           (fun t _ s' => s' = self /\ forallb (fun ev => negb (on_process ev)) t = true)).
  destruct self as [pl l i sh p f pa info].
  unfold get_progress, query, extract, not_running, no_socket.
  explore; simpl; auto.
Qed.



Lemma slice_from_length (A : Type) (l : list A) (i : Z) :
  0 <= i -> List.length (slice_from l i) = (List.length l - Z.to_nat i)%nat.
Proof.
  intros Hi. unfold slice_from, slice_bound. rewrite length_skipn.
  destruct (Z.ltb_spec i 0); [ lia | ]. unfold len. lia.
Qed.

(** X13.  With at most one track after the cursor there is nothing to
    reshuffle: toggle_shuffle flips the flag, draws no random number and
    leaves the list as it is.  This covers the empty list and the last
    track. *)
Theorem toggle_shuffle_nothing_left (o : oracle) (self : MusicPlayer) :
  0 <= current_song_index self ->
  len (songs self) <= current_song_index self + 2 ->
  calls o (toggle_shuffle self) = [] /\
  outcome_of o toggle_shuffle self = Normal tt /\
  state_after o toggle_shuffle self = with_shuffle (negb (shuffle self)) self.
Proof.
  intros Hi Hn.
  apply (along_result toggle_shuffle self o
           (fun t out s' => t = [] /\ out = Normal tt /\
                            s' = with_shuffle (negb (shuffle self)) self)).
  destruct self as [pl l i sh p f pa info]. simpl in Hi, Hn.
  assert (Hrem : (List.length (slice_from l (i + 1)) <= 1)%nat).
  { rewrite slice_from_length by lia. unfold len in Hn. lia. }
  assert (Hjoin := slices_rejoin l (i + 1)).
  unfold toggle_shuffle. unfold_m.
  destruct (negb (is_empty l) && (i <? len l))%bool; [ | simpl; auto ].
  destruct (slice_from l (i + 1)) as [| a [| b rest]] eqn:E.
  - simpl. auto.
  - simpl. rewrite Hjoin. auto.
  - simpl in Hrem. lia.
Qed.

Lemma toggle_shuffle_nothing_left_witness :
  let self := mkPlayer (Some "p") abc 2 false (Some 1%nat) None (PBool false) "c.mp3" in
  calls quiet (toggle_shuffle self) = [] /\
  songs (state_after quiet toggle_shuffle self) = abc /\
  shuffle (state_after quiet toggle_shuffle self) = true.
Proof.
  intros self.
  assert (Hi : 0 <= current_song_index self) by (vm_compute; discriminate).
  assert (Hn : len (songs self) <= current_song_index self + 2)
    by (vm_compute; discriminate).
  destruct (@toggle_shuffle_nothing_left quiet self Hi Hn) as (Hc & _ & Hs).
  split; [ exact Hc | ]. rewrite Hs. split; reflexivity.
Defined.

(** X14.  start_playlist on a playlist with tracks: the playlist name is
    recorded, the cursor is on the first position, and the loaded list is
    a rearrangement of the tracks of the playlist — exactly the playlist,
    in its order, when shuffle is off.  The shuffle flag is not touched. *)
Theorem start_playlist_loads_tracks (o : oracle) (playlist_name : string)
        (self : MusicPlayer) :
  o 0%nat (ParseM3u8 playlist_name) <> [] ->
  let s1 := state_after o (start_playlist playlist_name) self in
  current_playlist s1 = Some playlist_name /\
  current_song_index s1 = 0 /\
  shuffle s1 = shuffle self /\
  Permutation (o 0%nat (ParseM3u8 playlist_name)) (songs s1) /\
  (shuffle self = false -> songs s1 = o 0%nat (ParseM3u8 playlist_name)).
Proof.
  intros Hne s1.
  apply (along_result (start_playlist playlist_name) self o
           (fun _ _ s' =>
              current_playlist s' = Some playlist_name /\
              current_song_index s' = 0 /\
              shuffle s' = shuffle self /\
              Permutation (o 0%nat (ParseM3u8 playlist_name)) (songs s') /\
              (shuffle self = false -> songs s' = o 0%nat (ParseM3u8 playlist_name)))).
  destruct self as [pl l i sh p f pa info]. simpl shuffle.
  unfold start_playlist. unfold_m. cbn [along].
  destruct (o 0%nat (ParseM3u8 playlist_name)) as [| a parsed] eqn:E; [ congruence | ].
  simpl is_empty. cbv iota.
  assert (Hplay : forall l',
             Permutation (a :: parsed) l' -> (sh = false -> l' = a :: parsed) ->
             always (play_current_song (mkPlayer (Some playlist_name) l' 0 sh p f pa info))
               (fun r =>
                  current_playlist (snd r) = Some playlist_name /\
                  current_song_index (snd r) = 0 /\
                  shuffle (snd r) = sh /\
                  Permutation (a :: parsed) (songs (snd r)) /\
                  (sh = false -> songs (snd r) = a :: parsed))).
  { intros l' Hp Hsame. eapply always_mono; [ | apply play_current_song_frame ].
    intros r (H1 & H2 & H3 & H4). simpl in H1, H2, H3, H4.
    rewrite H1, H2, H3, H4. auto. }
  apply always_along. destruct sh.
  - do 2 apply always_pbind.
    eapply always_mono; [ | apply random_shuffle_permutes ].
    intros [out s'] [Hs [l' [Hr Hp]]]. simpl in Hs, Hr. subst out s'. simpl.
    apply Hplay; [ exact Hp | discriminate ].
  - apply Hplay; [ apply Permutation_refl | reflexivity ].
Qed.

Lemma start_playlist_loads_tracks_witness :
  let self := with_shuffle true init in
  let s1 := state_after three_tracks (start_playlist "p") self in
  songs s1 = ["b.mp3"; "c.mp3"; "a.mp3"] /\
  Permutation abc (songs s1) /\ current_song_index s1 = 0.
Proof.
  intros self s1.
  assert (Hne : three_tracks 0%nat (ParseM3u8 "p") <> []) by discriminate.
  destruct (@start_playlist_loads_tracks three_tracks "p" self Hne)
    as (_ & Hi & _ & Hp & _).
  split; [ reflexivity | ]. split; [ exact Hp | exact Hi ].
Defined.

(* ===================================================================== *)
(** * get_song_info *)
(* ===================================================================== *)

Lemma every_exception_catches (e : exn) : caught_by every_exception e = true.
Proof. destruct e; reflexivity. Qed.

Lemma prefix_empty (s : string) : String.prefix "" s = true.
Proof. destruct s; reflexivity. Qed.

Lemma prefix_drop (sep s : string) :
  String.prefix sep s = true ->
  s = String.append sep (string_drop (String.length sep) s).
Proof.
  revert s. induction sep as [| c sep IH]; intros s H; [ reflexivity | ].
  destruct s as [| d s]; [ discriminate | ]. simpl in H |- *.
  destruct (Ascii.ascii_dec c d) as [-> | ]; [ | discriminate ].
  f_equal. apply IH, H.
Qed.

Lemma prefix_append (sep x y : string) :
  String.prefix sep x = true -> String.prefix sep (String.append x y) = true.
Proof.
  revert x. induction sep as [| c sep IH]; intros x H; [ apply prefix_empty | ].
  destruct x as [| d x]; [ discriminate | ]. simpl in H |- *.
  destruct (Ascii.ascii_dec c d); [ apply IH, H | discriminate ].
Qed.

Lemma substring_of_cons (sep : string) (c : Ascii.ascii) (rest : string) :
  substring_of sep (String c rest) =
  (String.prefix sep (String c rest) || substring_of sep rest)%bool.
Proof. reflexivity. Qed.

Lemma split_once_cons (sep : string) (c : Ascii.ascii) (rest : string) :
  split_once sep (String c rest) =
  (if String.prefix sep (String c rest)
   then [""; string_drop (String.length sep) (String c rest)]
   else match split_once sep rest with
        | [a; b] => [String c a; b]
        | _ => [String c rest]
        end).
Proof. reflexivity. Qed.

Lemma substring_of_empty (sep : string) :
  substring_of sep "" = (sep =? "")%string.
Proof. destruct sep; reflexivity. Qed.

(** When the separator occurs, [split_once] cuts the string in two around
    its leftmost occurrence: the part before it has no occurrence. *)
Lemma split_once_found (sep s : string) :
  sep <> "" ->
  substring_of sep s = true ->
  exists a b,
    split_once sep s = [a; b] /\
    s = String.append a (String.append sep b) /\
    substring_of sep a = false.
Proof.
  intros Hsep. assert (Hs : (sep =? "")%string = false) by (apply String.eqb_neq, Hsep).
  induction s as [| c rest IH]; intros H.
  - rewrite substring_of_empty in H. congruence.
  - rewrite substring_of_cons in H. rewrite split_once_cons.
    destruct (String.prefix sep (String c rest)) eqn:Hpre.
    + exists "", (string_drop (String.length sep) (String c rest)).
      split; [ reflexivity | ]. split.
      * apply (prefix_drop sep (String c rest)), Hpre.
      * rewrite substring_of_empty. exact Hs.
    + simpl in H. destruct (IH H) as (a & b & Hsp & Hr & Ha).
      rewrite Hsp. exists (String c a), b.
      split; [ reflexivity | ]. split; [ simpl; f_equal; exact Hr | ].
      rewrite substring_of_cons, Ha, orb_false_r.
      destruct (String.prefix sep (String c a)) eqn:Hpa; [ | reflexivity ].
      apply (prefix_append sep (String c a) (String.append sep b)) in Hpa.
      simpl String.append in Hpa. rewrite <- Hr in Hpa. congruence.
Qed.

(** Case analysis that ends at the value the method returns. *)
Ltac settle :=
  repeat (unfold_m; rewrite ?every_exception_catches;
          try match goal with
              | |- context [match ?x with _ => _ end] => destruct x eqn:?
              end).

(** X15.  get_song_info never raises and touches neither the object nor
    the world beyond its one ffprobe run: whatever ffprobe did — not
    installed, timed out, failed, printed garbage or printed JSON of any
    shape — the method returns a label. *)
Theorem get_song_info_always_returns
        (path_stem : string -> string) (repr : pyval -> string)
        (probe : exn + completed) (song_path : string) (self : MusicPlayer) :
  exists label : string,
    get_song_info path_stem repr probe song_path self = Ret (Normal label, self).
Proof.
  unfold get_song_info, label_of_tags, tag_or, py_get, label_of_filename, rejoin, py_index.
  settle; eexists; reflexivity.
Qed.

Lemma rejoin_found (sep filename : string) (self : MusicPlayer) :
  sep <> "" -> substring_of sep filename = true ->
  exists a b,
    filename = String.append a (String.append sep b) /\
    substring_of sep a = false /\
    rejoin sep filename self =
      Ret (Normal (String.append a (String.append " - " b)), self).
Proof.
  intros Hsep H. destruct (@split_once_found sep filename Hsep H) as (a & b & Hsp & Hr & Ha).
  exists a, b. split; [ exact Hr | ]. split; [ exact Ha | ].
  unfold rejoin. rewrite Hsp. reflexivity.
Qed.

(** With ffprobe of no use, the method goes on to the file name. *)
Lemma get_song_info_falls_back
      (path_stem : string -> string) (repr : pyval -> string)
      (probe : exn + completed) (song_path : string) (self : MusicPlayer) :
  probe_unusable probe ->
  get_song_info path_stem repr probe song_path self =
  try_except (label_of_filename path_stem song_path)
    [(every_exception, ret (path_stem song_path))] self.
Proof.
  intros [-> | [-> | [(result & -> & Hcode) | (code & ->)]]];
    unfold get_song_info; unfold_m; try reflexivity.
  - destruct (Z.eqb_spec (returncode result) 0) as [E | _]; [ congruence | reflexivity ].
  - simpl. destruct (code =? 0); reflexivity.
Qed.

(** X16.  Without tags from ffprobe, a file whose name already reads
    "Artist - Title" gets exactly its name (without directory and
    extension) as label: splitting at the first " - " and joining the two
    parts again gives the name back.  A name with neither " - " nor an
    underscore is used as it is. *)
Theorem get_song_info_keeps_dashed_name
        (path_stem : string -> string) (repr : pyval -> string)
        (probe : exn + completed) (song_path : string) (self : MusicPlayer) :
  probe_unusable probe ->
  substring_of " - " (path_stem song_path) = true \/
  substring_of "_" (path_stem song_path) = false ->
  get_song_info path_stem repr probe song_path self =
    Ret (Normal (path_stem song_path), self).
Proof.
  intros Hp H. rewrite (@get_song_info_falls_back path_stem repr probe song_path self Hp).
  unfold label_of_filename.
  destruct (substring_of " - " (path_stem song_path)) eqn:Hd.
  - destruct (@rejoin_found " - " (path_stem song_path) self) as (a & b & Hr & _ & Hj);
      [ discriminate | exact Hd | ].
    rewrite <- Hr in Hj. unfold try_except. rewrite Hj. reflexivity.
  - destruct H as [H | H]; [ discriminate | ]. rewrite H. reflexivity.
Qed.

Lemma get_song_info_keeps_dashed_name_witness :
  get_song_info (fun p => p) (fun _ => "") (inl FileNotFoundError)
    "Daft Punk - One More Time" init =
  Ret (Normal "Daft Punk - One More Time", init).
Proof.
  apply (@get_song_info_keeps_dashed_name (fun p => p) (fun _ => "")
           (inl FileNotFoundError) "Daft Punk - One More Time" init).
  - right. left. reflexivity.
  - left. reflexivity.
Defined.

(** X17.  Without tags from ffprobe and without " - " in the name, a name
    with an underscore is cut at its first underscore, which is replaced
    by " - "; later underscores stay. *)
Theorem get_song_info_splits_at_underscore
        (path_stem : string -> string) (repr : pyval -> string)
        (probe : exn + completed) (song_path : string) (self : MusicPlayer) :
  probe_unusable probe ->
  substring_of " - " (path_stem song_path) = false ->
  substring_of "_" (path_stem song_path) = true ->
  exists artist title,
    path_stem song_path = String.append artist (String.append "_" title) /\
    substring_of "_" artist = false /\
    get_song_info path_stem repr probe song_path self =
      Ret (Normal (String.append artist (String.append " - " title)), self).
Proof.
  intros Hp Hd Hu. rewrite (@get_song_info_falls_back path_stem repr probe song_path self Hp).
  unfold label_of_filename. rewrite Hd, Hu.
  destruct (@rejoin_found "_" (path_stem song_path) self) as (a & b & Hr & Ha & Hj);
    [ discriminate | exact Hu | ].
  exists a, b. split; [ exact Hr | ]. split; [ exact Ha | ].
  unfold try_except. rewrite Hj. reflexivity.
Qed.

Lemma get_song_info_splits_at_underscore_witness :
  exists artist title,
    "Daft_Punk_One" = String.append artist (String.append "_" title) /\
    substring_of "_" artist = false /\
    get_song_info (fun p => p) (fun _ => "") (inr (Completed 1 NotJson))
      "Daft_Punk_One" init =
    Ret (Normal (String.append artist (String.append " - " title)), init).
Proof.
  apply (@get_song_info_splits_at_underscore (fun p => p) (fun _ => "")
           (inr (Completed 1 NotJson)) "Daft_Punk_One" init).
  - right. right. left. exists (Completed 1 NotJson). split; [ reflexivity | discriminate ].
  - reflexivity.
  - reflexivity.
Defined.

Lemma tag_or_tagged (tags : list (string * pyval)) (lower upper fallback value : string)
      (self : MusicPlayer) :
  tagged tags lower upper value ->
  tag_or (PDict tags) lower upper fallback self = Ret (Normal (PStr value), self).
Proof.
  intros [Hne H]. assert (Ht : truthy (PStr value) = true) by (apply nonempty_path, Hne).
  unfold tag_or, py_get. unfold_m.
  destruct H as [H | [[H | H] Hu]]; rewrite H; cbv beta iota.
  - rewrite Ht. reflexivity.
  - simpl truthy. cbv iota. rewrite Hu. cbv beta iota. rewrite Ht. reflexivity.
  - simpl truthy. cbv iota. rewrite Hu. cbv beta iota. rewrite Ht. reflexivity.
Qed.

(** X18.  When ffprobe reports tags, the label is "artist - title" built
    from them: the lower-case tag is used when it holds text, the
    upper-case one when the lower-case tag is absent or empty.  The file
    name plays no part. *)
Theorem get_song_info_uses_tags
        (path_stem : string -> string) (repr : pyval -> string)
        (probe : exn + completed) (song_path : string) (self : MusicPlayer)
        (tags : list (string * pyval)) (artist title : string) :
  probe_tags probe tags ->
  tagged tags "artist" "ARTIST" artist ->
  tagged tags "title" "TITLE" title ->
  get_song_info path_stem repr probe song_path self =
    Ret (Normal (String.append artist (String.append " - " title)), self).
Proof.
  intros (data & format & -> & Hf & Ht) Ha Hti.
  unfold get_song_info, label_of_tags, py_get. unfold_m. simpl.
  rewrite Hf. unfold_m. rewrite Ht. unfold_m.
  rewrite (@tag_or_tagged tags "artist" "ARTIST" "Unknown Artist" artist self Ha).
  unfold_m.
  rewrite (@tag_or_tagged tags "title" "TITLE" "Unknown Title" title self Hti).
  reflexivity.
Qed.

Lemma get_song_info_uses_tags_witness :
  get_song_info (fun p => p) (fun _ => "")
    (inr (Completed 0 (Json (PDict
       [("format", PDict [("tags", PDict [("ARTIST", PStr "Air"); ("artist", PStr "");
                                           ("title", PStr "La Femme d'Argent")])])]))))
    "01_track" init =
  Ret (Normal "Air - La Femme d'Argent", init).
Proof.
  apply (@get_song_info_uses_tags (fun p => p) (fun _ => "") _ "01_track" init
           [("ARTIST", PStr "Air"); ("artist", PStr ""); ("title", PStr "La Femme d'Argent")]
           "Air" "La Femme d'Argent").
  - eexists. eexists. repeat split; reflexivity.
  - split; [ discriminate | ]. right. split; [ right; reflexivity | reflexivity ].
  - split; [ discriminate | ]. left. reflexivity.
Defined.

(** X19.  When ffprobe runs and prints a JSON object that carries none of
    the four tags, the label is "Unknown Artist - Unknown Title": the
    method does not go on to the file name, even one that reads
    "Artist - Title". *)
Theorem get_song_info_untagged
        (path_stem : string -> string) (repr : pyval -> string)
        (probe : exn + completed) (song_path : string) (self : MusicPlayer) :
  probe_untagged probe ->
  get_song_info path_stem repr probe song_path self =
    Ret (Normal "Unknown Artist - Unknown Title", self).
Proof.
  intros (data & -> & H).
  unfold get_song_info, label_of_tags, tag_or, py_get. unfold_m. simpl.
  destruct H as [Hf | (format & Hf & [Ht | (tags & Ht & H1 & H2 & H3 & H4)])];
    rewrite Hf; unfold_m; simpl; try reflexivity.
  - rewrite Ht. reflexivity.
  - rewrite Ht. unfold_m. rewrite H1. unfold_m. simpl. rewrite H2. unfold_m. simpl.
    rewrite H3. unfold_m. simpl. rewrite H4. reflexivity.
Qed.

Lemma get_song_info_untagged_witness :
  get_song_info (fun p => p) (fun _ => "")
    (inr (Completed 0 (Json (PDict [("format", PDict [("duration", PStr "215.3")])]))))
    "Daft Punk - One More Time" init =
  Ret (Normal "Unknown Artist - Unknown Title", init).
Proof.
  apply (@get_song_info_untagged (fun p => p) (fun _ => "") _
           "Daft Punk - One More Time" init).
  eexists. split; [ reflexivity | ].
  right. eexists. split; [ reflexivity | ]. left. reflexivity.
Defined.

(** X20.  When ffprobe runs and prints JSON that is not an object, the
    attempt to read it fails inside the method and is caught: the label
    is the bare file name, not split at " - " or at an underscore. *)
Theorem get_song_info_unexpected_json
        (path_stem : string -> string) (repr : pyval -> string)
        (v : pyval) (song_path : string) (self : MusicPlayer) :
  is_dict v = false ->
  get_song_info path_stem repr (inr (Completed 0 (Json v))) song_path self =
    Ret (Normal (path_stem song_path), self).
Proof.
  intros H. unfold get_song_info, label_of_tags, py_get.
  destruct v; try discriminate H; reflexivity.
Qed.

Lemma get_song_info_unexpected_json_witness :
  get_song_info (fun p => p) (fun _ => "") (inr (Completed 0 (Json (PList []))))
    "Daft_Punk_One" init =
  Ret (Normal "Daft_Punk_One", init).
Proof.
  apply (@get_song_info_unexpected_json (fun p => p) (fun _ => "") (PList [])
           "Daft_Punk_One" init).
  reflexivity.
Defined.

(* ===================================================================== *)
(** * parse_m3u8 *)
(* ===================================================================== *)

Lemma read_entries_flat_map
      (home : string) (join : string -> string -> string) (normal strip : string -> string)
      (fs : filesystem) (lines songs : list string) :
  read_entries home join normal strip fs lines songs =
  (songs ++ flat_map (song_of_line home join normal strip fs) lines)%list.
Proof.
  revert songs. induction lines as [| raw rest IH]; intros songs; simpl.
  - now rewrite app_nil_r.
  - unfold song_of_line at 1.
    destruct (is_entry (strip raw)); simpl.
    + destruct (path_exists fs (song_path_of home join normal fs (strip raw)));
        rewrite IH; simpl.
      * now rewrite <- app_assoc.
      * reflexivity.
    + apply IH.
Qed.

Lemma song_of_line_exists
      (home : string) (join : string -> string -> string) (normal strip : string -> string)
      (fs : filesystem) (raw p : string) :
  In p (song_of_line home join normal strip fs raw) -> path_exists fs p = true.
Proof.
  unfold song_of_line.
  destruct (is_entry (strip raw)); simpl; [ | tauto ].
  destruct (path_exists fs (song_path_of home join normal fs (strip raw))) eqn:E;
    simpl; [ | tauto ].
  intros [<- | []]. exact E.
Qed.

(** X21.  parse_m3u8 returns only files that exist: every path in its
    result was found in the file system; and a playlist whose file is not
    there gives the empty list, without an error. *)
Theorem parse_m3u8_songs_exist
        (home : string) (join : string -> string -> string) (normal strip : string -> string)
        (fs : filesystem) (playlist_name : string) :
  (forall songs,
      parse_m3u8 home join normal strip fs playlist_name = Normal songs ->
      forall p, In p songs -> path_exists fs p = true) /\
  (path_exists fs (join (PLAYLISTS_DIR home join) (String.append playlist_name ".m3u8"))
     = false ->
   parse_m3u8 home join normal strip fs playlist_name = Normal []).
Proof.
  unfold parse_m3u8. split.
  - intros songs H p Hp.
    destruct (path_exists fs (join (PLAYLISTS_DIR home join)
                                (String.append playlist_name ".m3u8"))); simpl in H.
    + destruct (read_lines fs _) as [e | lines]; [ discriminate | ].
      inversion H. subst songs. rewrite read_entries_flat_map in Hp. simpl in Hp.
      apply in_flat_map in Hp. destruct Hp as (raw & _ & Hraw).
      exact (song_of_line_exists _ _ _ _ _ _ _ Hraw).
    + inversion H. subst songs. destruct Hp.
  - intros ->. reflexivity.
Qed.

Lemma parse_m3u8_songs_exist_witness :
  parse_m3u8 "/home/u" slash (fun s => s) (fun s => s) demo_fs "mix" =
    Normal ["/home/u/Music/playlists/a.mp3"; "/home/u/Music/b.mp3"; "/srv/c.mp3"] /\
  path_exists demo_fs "/home/u/Music/b.mp3" = true /\
  parse_m3u8 "/home/u" slash (fun s => s) (fun s => s) demo_fs "none" = Normal [].
Proof.
  split; [ reflexivity | ]. split.
  - apply (proj1 (@parse_m3u8_songs_exist "/home/u" slash (fun s => s) (fun s => s)
                    demo_fs "mix") _ eq_refl).
    right. left. reflexivity.
  - apply (proj2 (@parse_m3u8_songs_exist "/home/u" slash (fun s => s) (fun s => s)
                    demo_fs "none")).
    reflexivity.
Defined.

Lemma skipped_adds_nothing
      (home : string) (join : string -> string -> string) (normal strip : string -> string)
      (fs : filesystem) (raw : string) :
  skipped home join normal strip fs raw ->
  song_of_line home join normal strip fs raw = [].
Proof.
  unfold skipped, song_of_line, is_entry. intros [H | [H | H]]; rewrite H.
  - reflexivity.
  - now rewrite andb_false_r.
  - now rewrite andb_false_r.
Qed.

(** X22.  Blank lines, comment lines and lines naming a file that is not
    there do not count: a playlist file with such a line anywhere in it
    loads exactly the tracks it loads without that line. *)
Theorem parse_m3u8_skips_lines
        (home : string) (join : string -> string -> string) (normal strip : string -> string)
        (there : string -> bool) (before after : list string) (raw playlist_name : string) :
  skipped home join normal strip
    {| path_exists := there; read_lines := fun _ => inr (before ++ raw :: after)%list |} raw ->
  parse_m3u8 home join normal strip
    {| path_exists := there; read_lines := fun _ => inr (before ++ raw :: after)%list |}
    playlist_name =
  parse_m3u8 home join normal strip
    {| path_exists := there; read_lines := fun _ => inr (before ++ after)%list |}
    playlist_name.
Proof.
  intros Hskip. unfold parse_m3u8. simpl.
  destruct (there _); simpl; [ | reflexivity ].
  rewrite !read_entries_flat_map. simpl. f_equal.
  rewrite !flat_map_app. simpl.
  rewrite (skipped_adds_nothing Hskip). simpl. reflexivity.
Qed.

Lemma parse_m3u8_skips_lines_witness :
  parse_m3u8 "/home/u" slash (fun s => s) (fun s => s)
    {| path_exists := demo_exists;
       read_lines := fun _ => inr (["a.mp3"] ++ "# my favourite" :: ["b.mp3"])%list |} "mix" =
  Normal ["/home/u/Music/playlists/a.mp3"; "/home/u/Music/b.mp3"].
Proof.
  rewrite (@parse_m3u8_skips_lines "/home/u" slash (fun s => s) (fun s => s)
             demo_exists ["a.mp3"] ["b.mp3"] "# my favourite" "mix").
  - reflexivity.
  - right. left. reflexivity.
Defined.



(* ===================================================================== *)
(** * The key dispatch of run *)
(* ===================================================================== *)

Lemma on_player_keeps_selection (m : M unit) (app : App) :
  always (on_player m app)
    (fun r => playlists (snd r) = playlists app /\
              selected_index (snd r) = selected_index app /\
              fst r <> CrashZeroDivision).
Proof.
  unfold on_player. apply always_pbind.
  generalize (m (player app)). intros p.
  induction p as [[out s] | ev k IH]; simpl.
  - repeat split. destruct out; discriminate.
  - intros a. apply IH.
Qed.

Lemma select_in_range (i : Z) (app : App) :
  playlists app <> [] ->
  select i app =
    Ret (Continue, mkApp (player app) (playlists app) (i mod len (playlists app))) /\
  0 <= i mod len (playlists app) < len (playlists app).
Proof.
  intros Hne. assert (Hlen : 0 < len (playlists app)).
  { unfold len. destruct (playlists app); [ congruence | simpl; lia ]. }
  unfold select. destruct (Z.eqb_spec (len (playlists app)) 0); [ lia | ].
  split; [ reflexivity | apply Z.mod_pos_bound, Hlen ].
Qed.

(** X24.  Whatever key is pressed and whatever the world answers, the
    list of playlists is not changed and the browser's cursor stays on one
    of them; with playlists loaded, moving the cursor never divides by
    zero. *)
Theorem handle_key_keeps_selection (key : Z) (o : oracle) (app : App) :
  playlists app <> [] -> selection_ok app ->
  let r := result o (handle_key key app) in
  playlists (snd r) = playlists app /\
  selection_ok (snd r) /\
  fst r <> CrashZeroDivision.
Proof.
  intros Hne Hsel r. unfold r, result.
  apply (always_run (handle_key key app)
           (fun r => playlists (snd r) = playlists app /\ selection_ok (snd r) /\
                     fst r <> CrashZeroDivision)).
  assert (Hplayer : forall m,
             always (on_player m app)
               (fun r => playlists (snd r) = playlists app /\ selection_ok (snd r) /\
                         fst r <> CrashZeroDivision)).
  { intros m. eapply always_mono; [ | apply on_player_keeps_selection ].
    intros x (H1 & H2 & H3). unfold selection_ok. rewrite H1, H2. auto. }
  assert (Hselect : forall i,
             always (select i app)
               (fun r => playlists (snd r) = playlists app /\ selection_ok (snd r) /\
                         fst r <> CrashZeroDivision)).
  { intros i. destruct (@select_in_range i app Hne) as [-> Hr].
    simpl. unfold selection_ok. simpl. repeat split; try apply Hr. discriminate. }
  assert (Hsame : forall v, v <> CrashZeroDivision ->
             always (Ret (v, app))
               (fun r => playlists (snd r) = playlists app /\ selection_ok (snd r) /\
                         fst r <> CrashZeroDivision)).
  { intros v Hv. simpl. auto. }
  unfold handle_key.
  repeat match goal with
         | |- always (if ?c then _ else _) _ => destruct c
         end;
    first [ apply Hplayer | apply Hselect | apply Hsame; discriminate ].
Qed.

Lemma handle_key_keeps_selection_witness :
  let app := mkApp init ["chill"; "mix"; "rock"] 0 in
  selected_index (snd (result quiet (handle_key KEY_UP app))) = 2 /\
  selection_ok (snd (result quiet (handle_key KEY_UP app))).
Proof.
  intros app. split; [ reflexivity | ].
  apply (@handle_key_keeps_selection KEY_UP quiet app).
  - discriminate.
  - vm_compute. split; [ discriminate | reflexivity ].
Defined.

Lemma handle_key_up (key : Z) (app : App) :
  is_up key -> handle_key key app = select (selected_index app - 1) app.
Proof. intros [-> | ->]; reflexivity. Qed.

Lemma handle_key_down (key : Z) (app : App) :
  is_down key -> handle_key key app = select (selected_index app + 1) app.
Proof. intros [-> | ->]; reflexivity. Qed.

(** X25.  Moving the cursor makes no call and wraps around: up from the
    first playlist goes to the last, down from the last goes to the
    first, and down undoes up (and up undoes down) wherever the cursor
    is.  The player is not touched. *)
Theorem handle_key_navigation (up down : Z) (o1 o2 : oracle) (app : App) :
  is_up up -> is_down down ->
  playlists app <> [] -> selection_ok app ->
  let after_up := snd (result o1 (handle_key up app)) in
  let after_down := snd (result o1 (handle_key down app)) in
  calls o1 (handle_key up app) = [] /\ calls o1 (handle_key down app) = [] /\
  player after_up = player app /\ player after_down = player app /\
  snd (result o2 (handle_key down after_up)) = app /\
  snd (result o2 (handle_key up after_down)) = app /\
  (selected_index app = 0 -> selected_index after_up = len (playlists app) - 1) /\
  (selected_index app = len (playlists app) - 1 -> selected_index after_down = 0).
Proof.
  intros Hup Hdown Hne Hsel.
  destruct app as [pl lists sel]. unfold selection_ok in Hsel. simpl in Hne, Hsel.
  set (n := len lists) in *.
  assert (Hselect : forall i pl' sel',
             select i (mkApp pl' lists sel') = Ret (Continue, mkApp pl' lists (i mod n))).
  { intros i pl' sel'. exact (proj1 (@select_in_range i (mkApp pl' lists sel') Hne)). }
  rewrite (@handle_key_up up _ Hup), (@handle_key_down down _ Hdown).
  simpl selected_index. rewrite !Hselect.
  unfold calls, result. simpl.
  rewrite (@handle_key_up up _ Hup), (@handle_key_down down _ Hdown).
  simpl selected_index. rewrite !Hselect. simpl.
  repeat split.
  - f_equal. rewrite Zplus_mod_idemp_l. replace (sel - 1 + 1) with sel by lia.
    apply Z.mod_small, Hsel.
  - f_equal. rewrite Zminus_mod_idemp_l. replace (sel + 1 - 1) with sel by lia.
    apply Z.mod_small, Hsel.
  - intros E. symmetry. apply Z.mod_unique with (q := -1); lia.
  - intros E. symmetry. apply Z.mod_unique with (q := 1); lia.
Qed.

Lemma handle_key_navigation_witness :
  let app := mkApp init ["chill"; "mix"; "rock"] 2 in
  selected_index (snd (result quiet (handle_key 106 app))) = 0 /\
  snd (result quiet (handle_key KEY_UP (snd (result quiet (handle_key 106 app))))) = app.
Proof.
  intros app.
  assert (Hup : is_up KEY_UP) by (left; reflexivity).
  assert (Hdown : is_down 106) by (right; reflexivity).
  assert (Hne : playlists app <> []) by discriminate.
  assert (Hsel : selection_ok app) by (vm_compute; split; [ discriminate | reflexivity ]).
  destruct (@handle_key_navigation KEY_UP 106 quiet quiet app Hup Hdown Hne Hsel)
    as (_ & _ & _ & _ & _ & Hback & _ & Hwrap).
  split; [ exact (Hwrap eq_refl) | exact Hback ].
Defined.

Lemma start_playlist_records_name (playlist_name : string) (self : MusicPlayer) :
  always (start_playlist playlist_name self)
    (fun r => current_playlist (snd r) = Some playlist_name).
Proof.
  destruct self as [pl l i sh p f pa info].
  unfold start_playlist. unfold_m. simpl always. intros parsed.
  destruct (is_empty parsed); [ reflexivity | ].
  assert (Hplay : forall l',
             always (play_current_song (mkPlayer (Some playlist_name) l' 0 sh p f pa info))
               (fun r => current_playlist (snd r) = Some playlist_name)).
  { intros l'. eapply always_mono; [ | apply play_current_song_frame ].
    intros r (H1 & _). exact H1. }
  destruct sh.
  - do 2 apply always_pbind.
    eapply always_mono; [ | apply random_shuffle_permutes ].
    intros [out s'] [Hs [l' [Hr Hp]]]. simpl in Hs, Hr. subst out s'. simpl.
    apply Hplay.
  - apply Hplay.
Qed.

Lemma start_playlist_first_call (o : oracle) (n : nat) (playlist_name : string)
      (self : MusicPlayer) :
  along o n (start_playlist playlist_name self)
    (fun t _ => exists rest, t = ParseM3u8 playlist_name :: rest).
Proof.
  destruct self as [pl l i sh p f pa info].
  unfold start_playlist. unfold_m. cbn [along].
  apply along_trivial. intros t r. eauto.
Qed.

(** X26.  Enter plays what is highlighted: with the cursor on one of the
    playlists, the first thing the program does is look up the tracks of
    that very playlist, and afterwards it is recorded as the current
    playlist; the lookup of the name in the list never fails.  The list
    and the cursor are as before. *)
Theorem handle_key_enter (key : Z) (o : oracle) (app : App) :
  is_enter key -> selection_ok app ->
  let name := nth (Z.to_nat (selected_index app)) (playlists app) "" in
  let r := result o (handle_key key app) in
  (exists rest, calls o (handle_key key app) = ParseM3u8 name :: rest) /\
  current_playlist (player (snd r)) = Some name /\
  playlists (snd r) = playlists app /\
  selected_index (snd r) = selected_index app.
Proof.
  intros Hkey Hsel name r.
  assert (E : handle_key key app =
              on_player (start_playlist name) app).
  { assert (E0 : handle_key key app =
                 on_player (selected_playlist <- py_index (playlists app) (selected_index app) ;;
                            start_playlist selected_playlist) app)
      by (destruct Hkey as [-> | ->]; reflexivity).
    rewrite E0. unfold on_player, bind.
    rewrite (@py_index_in_range (playlists app) (selected_index app) (player app) Hsel).
    reflexivity. }
  unfold r, calls, result. rewrite E.
  apply (along_run (on_player (start_playlist name) app) o 0
           (fun t x => (exists rest, t = ParseM3u8 name :: rest) /\
                       current_playlist (player (snd x)) = Some name /\
                       playlists (snd x) = playlists app /\
                       selected_index (snd x) = selected_index app)).
  unfold on_player. apply along_pbind.
  assert (A := @start_playlist_first_call o 0 name (player app)).
  assert (B := @always_along _ (start_playlist name (player app)) o 0 _
                 (@start_playlist_records_name name (player app))).
  eapply along_mono; [ | exact (@along_conj _ _ _ _ _ _ A B) ].
  intros t x [[rest ->] Hname]. simpl. repeat split; eauto.
Qed.

Lemma handle_key_enter_witness :
  let app := mkApp init ["chill"; "mix"; "rock"] 1 in
  current_playlist (player (snd (result three_tracks (handle_key 10 app)))) = Some "mix" /\
  hd Sleep (calls three_tracks (handle_key 10 app)) = ParseM3u8 "mix".
Proof.
  intros app.
  assert (Hkey : is_enter 10) by (left; reflexivity).
  assert (Hsel : selection_ok app) by (vm_compute; split; [ discriminate | reflexivity ]).
  destruct (@handle_key_enter 10 three_tracks app Hkey Hsel) as ([rest Hc] & Hn & _).
  split; [ exact Hn | rewrite Hc; reflexivity ].
Defined.

(* ===================================================================== *)
(** * check_dependencies *)
(* ===================================================================== *)

(** X27.  check_dependencies reports nothing exactly when everything is
    in place: mpv ran, the playlists directory exists and holds at least
    one .m3u8 file.  An exception of the version check other than
    FileNotFoundError and TimeoutExpired is not turned into an issue: it
    leaves the function. *)
Theorem check_dependencies_all_clear (dir : string) (version : option exn)
        (dir_exists : bool) (m3u8_files : list string) :
  (check_dependencies dir version dir_exists m3u8_files = Normal [] <->
   version = None /\ dir_exists = true /\ m3u8_files <> []) /\
  (forall e, version = Some e ->
             caught_by [FileNotFoundError; TimeoutExpired] e = false ->
             check_dependencies dir version dir_exists m3u8_files = Raised e).
Proof.
  unfold check_dependencies. split.
  - split.
    + destruct version as [e | ].
      * destruct (caught_by _ e); [ | discriminate ].
        destruct dir_exists; simpl; [ | discriminate ].
        destruct m3u8_files; simpl; discriminate.
      * destruct dir_exists; simpl; [ | discriminate ].
        destruct m3u8_files; simpl; [ discriminate | ].
        intros _. repeat split. discriminate.
    + intros (-> & -> & Hne). destruct m3u8_files; [ congruence | reflexivity ].
  - intros e -> He. rewrite He. reflexivity.
Qed.



(* ===================================================================== *)
(** * The read-back that succeeds *)
(* ===================================================================== *)

(** X29.  When toggle_play_pause goes through the channel — the player
    runs, the socket is there, the cycle command is sent and answered —
    and the reply to the query is a JSON object with a data field, the
    paused flag becomes the value of that field, whatever it was before.
    When the reply is an object without a data field, is text that is not
    JSON, or is a JSON list or string in which "data" does not occur, the
    flag becomes the boolean negation of the truth value it had.  In all
    these cases the method returns, changes nothing else, and its calls
    are the poll, the look for the socket, the connection, the two
    commands with their replies, and the close of the socket. *)
Theorem toggle_play_pause_reads_back (o : oracle) (self : MusicPlayer) (readback : payload) :
  pause_exchange o self readback ->
  let flipped := with_paused (PBool (negb (truthy (paused self)))) self in
  (forall kvs v,
      readback = Json (PDict kvs) -> dict_get kvs "data" = Some v ->
      outcome_of o toggle_play_pause self = Normal tt /\
      state_after o toggle_play_pause self = with_paused v self) /\
  (forall kvs,
      readback = Json (PDict kvs) -> dict_get kvs "data" = None ->
      outcome_of o toggle_play_pause self = Normal tt /\
      state_after o toggle_play_pause self = flipped) /\
  (readback = NotJson ->
   outcome_of o toggle_play_pause self = Normal tt /\
   state_after o toggle_play_pause self = flipped) /\
  (forall l,
      readback = Json (PList l) -> existsb (is_str "data") l = false ->
      outcome_of o toggle_play_pause self = Normal tt /\
      state_after o toggle_play_pause self = flipped) /\
  (forall s,
      readback = Json (PStr s) -> substring_of "data" s = false ->
      outcome_of o toggle_play_pause self = Normal tt /\
      state_after o toggle_play_pause self = flipped) /\
  (forall v, readback = NotJson \/ readback = Json v ->
   outcome_of o toggle_play_pause self = Normal tt ->
   exists proc f sock,
     calls o (toggle_play_pause self) =
       [Poll proc; PathExists f; SockConnect f false;
        SockSend sock (command ["cycle"; "pause"]); SockRecv sock;
        SockSend sock (command ["get_property"; "pause"]); SockRecv sock;
        SockClose sock]).
Proof.
  intros (proc & f & sock & cycle_reply & Hp & Hf & Hne & H0 & H1 & H2 & H3 & H4 & H5 & H6)
         flipped.
  destruct self as [pl l i sh p f' pa info]. simpl in Hp, Hf. subst p f'.
  apply nonempty_path in Hne. unfold flipped. simpl paused. clear flipped.
  set (self := mkPlayer pl l i sh (Some proc) (Some f) pa info).
  assert (Hrun : forall new : pyval,
             (exists kvs, readback = Json (PDict kvs) /\
                          new = match dict_get kvs "data" with
                                | Some v => v
                                | None => PBool (negb (truthy pa))
                                end) \/
             (new = PBool (negb (truthy pa)) /\
              (readback = NotJson \/
               (exists l', readback = Json (PList l') /\ existsb (is_str "data") l' = false) \/
               (exists s, readback = Json (PStr s) /\ substring_of "data" s = false))) ->
             along o 0 (toggle_play_pause self)
               (fun _ r => fst r = Normal tt /\ snd r = with_paused new self)).
  { intros new Hshape. unfold self.
    unfold toggle_play_pause, not_running, no_socket. follow.
    destruct Hshape as [(kvs & E & En) | (En & [E | [(l' & E & Hl) | (s & E & Hs)]])];
      subst readback new; follow.
    - destruct (dict_get kvs "data") as [v | ]; follow;
        destruct (o 7%nat (SockClose sock)); split; reflexivity.
    - destruct (o 7%nat (SockClose sock)); split; reflexivity.
    -  destruct (o 7%nat (SockClose sock)); split; reflexivity.
    -  destruct (o 7%nat (SockClose sock)); split; reflexivity. }
  assert (Hget : forall new,
             along o 0 (toggle_play_pause self)
               (fun _ r => fst r = Normal tt /\ snd r = with_paused new self) ->
             outcome_of o toggle_play_pause self = Normal tt /\
             state_after o toggle_play_pause self = with_paused new self).
  { intros new H.
    exact (@along_result _ toggle_play_pause self o
             (fun _ out s' => out = Normal tt /\ s' = with_paused new self) H). }
  split; [ | split; [ | split; [ | split; [ | split ] ] ] ].
  - intros kvs v E Hd. apply Hget, Hrun. left. exists kvs. rewrite Hd. auto.
  - intros kvs E Hd. apply Hget, Hrun. left. exists kvs. rewrite Hd. auto.
  - intros E. apply Hget, Hrun. right. auto.
  - intros l' E Hl. apply Hget, Hrun. right. split; [ reflexivity | ]. right. left. eauto.
  - intros s E Hs. apply Hget, Hrun. right. split; [ reflexivity | ]. right. right. eauto.
  - intros v Hshape. exists proc, f, sock. revert H.
    apply (@along_result _ toggle_play_pause self o
             (fun t out _ => out = Normal tt -> t = _)).
    unfold self. unfold toggle_play_pause, not_running, no_socket. follow.
    destruct Hshape as [E | E]; subst readback; follow.
    + destruct (o 7%nat (SockClose sock)). reflexivity.
    + destruct v; follow;
        repeat match goal with
               | |- context [match ?x with _ => _ end] => destruct x eqn:?; follow
               end;
        try (intros C; discriminate C); reflexivity.
Qed.

Lemma toggle_play_pause_reads_back_witness :
  let self := state_after three_tracks (start_playlist "p") init in
  let paused_reply := Json (PDict [("data", PBool true); ("error", PStr "success")]) in
  let error_reply := Json (PDict [("error", PStr "property unavailable")]) in
  paused self = PBool false /\
  state_after (reading_back paused_reply) toggle_play_pause self
    = with_paused (PBool true) self /\
  state_after (reading_back error_reply) toggle_play_pause (with_paused (PBool true) self)
    = with_paused (PBool false) self /\
  state_after (reading_back NotJson) toggle_play_pause self
    = with_paused (PBool true) self.
Proof.
  intros self paused_reply error_reply. split; [ reflexivity | ].
  assert (Hx : forall r s, player_process s = Some 1%nat ->
                           ipc_socket s = Some "/tmp/mpv_music_player_4242.sock" ->
                           pause_exchange (reading_back r) s r).
  { intros r s Hp Hf.
    exists 1%nat, "/tmp/mpv_music_player_4242.sock", 7%nat, (PDict []).
    repeat split; try reflexivity; try assumption. discriminate. }
  split; [ | split ].
  - destruct (@toggle_play_pause_reads_back (reading_back paused_reply) self paused_reply
                (Hx _ self eq_refl eq_refl)) as (Hdata & _).
    exact (proj2 (Hdata _ (PBool true) eq_refl eq_refl)).
  - destruct (@toggle_play_pause_reads_back (reading_back error_reply)
                (with_paused (PBool true) self) error_reply
                (Hx _ (with_paused (PBool true) self) eq_refl eq_refl))
      as (_ & Hnone & _).
    exact (proj2 (Hnone _ eq_refl eq_refl)).
  - destruct (@toggle_play_pause_reads_back (reading_back NotJson) self NotJson
                (Hx _ self eq_refl eq_refl)) as (_ & _ & Hgarbage & _).
    exact (proj2 (Hgarbage eq_refl)).
Defined.
